(** * heat_map: the ingest API and the dashboard's series reconstruction

    A shallow embedding of [api/main.py] (payload validation, schema-drift
    rotation, CSV writing, the raw-CSV read endpoint) and of the data
    pipeline of [dashboard/app.py] (reset trimming, windowing, column
    renaming, display rounding), followed by the properties of the
    specification that were checked against them.

    Conventions of the embedding:
    - Python numbers that are reals in the specification ([ts], sensor
      values) are exact rationals [Q]; integer seconds are [Z].
      Binary floating-point rounding error is not modelled.
    - Text is [string]; a character is a code below 256.
    - The data directory is a finite map from paths to files; every
      operation is sequential and no file operation fails. *)

From Stdlib Require Import ZArith QArith Qround Lqa Ascii String Sorted Lia.
From stdpp Require Import base strings gmap list pretty.

Open Scope string_scope.

(** ** The text written by [csv.writer] and read back by [readline] *)

Module Csv.

(** The default ("excel") dialect: delimiter [,], quote character
    (code 34), line terminator CR LF, minimal quoting with doubled
    quotes. *)
Definition delimiter : ascii := ","%char.
Definition quotechar : ascii := "034"%char.
Definition CR : ascii := "013"%char.
Definition LF : ascii := "010"%char.
Definition lineterminator : string := String CR (String LF EmptyString).

(** A character that forces a field to be quoted. *)
Definition special (c : ascii) : bool :=
  Ascii.eqb c delimiter || Ascii.eqb c quotechar
  || Ascii.eqb c CR || Ascii.eqb c LF.

Fixpoint needs_quote (s : string) : bool :=
  match s with
  | EmptyString => false
  | String c s' => special c || needs_quote s'
  end.

Fixpoint double_quotes (s : string) : string :=
  match s with
  | EmptyString => EmptyString
  | String c s' =>
      if Ascii.eqb c quotechar
      then String quotechar (String quotechar (double_quotes s'))
      else String c (double_quotes s')
  end.

Definition write_field (s : string) : string :=
  if needs_quote s
  then String quotechar (double_quotes s ++ String quotechar EmptyString)
  else s.

Fixpoint join (fields : list string) : string :=
  match fields with
  | [] => EmptyString
  | [f] => f
  | f :: rest => f ++ String delimiter (join rest)
  end.

(** [csv.writer(f).writerow(fields)] for a record of strings.  A record
    made of one empty field is written as a pair of quotes. *)
Definition writerow (fields : list string) : string :=
  match fields with
  | [EmptyString] => String quotechar (String quotechar lineterminator)
  | _ => join (map write_field fields) ++ lineterminator
  end.

(** [f.readline()] on a file opened in text mode: the characters up to
    the first line end (CR LF, CR or LF), which is returned as LF. *)
Fixpoint readline (s : string) : string :=
  match s with
  | EmptyString => EmptyString
  | String c s' =>
      if Ascii.eqb c CR || Ascii.eqb c LF
      then String LF EmptyString
      else String c (readline s')
  end.

(** [str.strip()]: the white space of Python among the characters with a
    code below 256 (tab to carriage return, the four separators, space,
    next line and no-break space). *)
Definition is_space (c : ascii) : bool :=
  let n := nat_of_ascii c in
  ((9 <=? n)%nat && (n <=? 13)%nat) || ((28 <=? n)%nat && (n <=? 32)%nat)
  || (n =? 133)%nat || (n =? 160)%nat.

Fixpoint lstrip (s : string) : string :=
  match s with
  | EmptyString => EmptyString
  | String c s' => if is_space c then lstrip s' else s
  end.

Fixpoint rstrip (s : string) : string :=
  match s with
  | EmptyString => EmptyString
  | String c s' =>
      match rstrip s' with
      | EmptyString => if is_space c then EmptyString else String c EmptyString
      | r => String c r
      end
  end.

Definition strip (s : string) : string := rstrip (lstrip s).

(** [s.count(",")] *)
Fixpoint count (c : ascii) (s : string) : nat :=
  match s with
  | EmptyString => 0
  | String d s' => (if Ascii.eqb d c then 1 else 0) + count c s'
  end.

End Csv.

(** ** api/main.py *)

Module Api.

(** *** Files

    A CSV file is represented by the records that [writerow] put into
    it: the header record, written when the file is created, and the
    data rows appended afterwards.  Its text is the concatenation of
    the written records, so its first line is the first line of the
    written header (lemma [readline_writerow_app] below). *)

Inductive cell : Type :=
| CInt (z : Z)      (* an [int] *)
| CFloat (x : Q)    (* [float(v)] *)
| CEmpty.           (* the empty string written for [None] *)

Record csv_file : Type := CsvFile {
  header : list string;
  rows : list (list cell)
}.

(** The data directory: CSV files and metadata JSON files by path.  The
    two kinds never share a path (one ends in [.csv], the other in
    [.json]), so they are kept in two maps. *)
Record filesystem : Type := Filesystem {
  csv : gmap string csv_file;
  meta : gmap string (list string)
}.

Definition empty_fs : filesystem := Filesystem ∅ ∅.

(** *** Request bodies *)

(** A JSON value found where a sequence of optional reals is expected. *)
Inductive jvalue : Type :=
| JList (vs : list (option Q))
| JOther.                        (* anything that is not a list *)

Record payload : Type := Payload {
  p_device : option string;
  p_ts : option Q;
  p_names : option (list string);
  p_temps : option jvalue;
  p_raw : option jvalue
}.

Inductive json_body : Type :=
| BadPayload                 (* {"ok": False, "error": "bad payload"} *)
| Saved (n : nat).           (* {"ok": True, "n": n} *)

Record response : Type := Response {
  status_code : nat;
  body : json_body
}.

Inductive kind : Type := Clean | Raw | Meta.

(** [os.path.join(a, b)] on POSIX. *)
Fixpoint ends_with_slash (a : string) : bool :=
  match a with
  | EmptyString => false
  | String c EmptyString => Ascii.eqb c "/"
  | String _ a' => ends_with_slash a'
  end.

Definition path_join (a b : string) : string :=
  if String.prefix "/" b then b
  else match a with
       | EmptyString => b
       | _ => if ends_with_slash a then a ++ b else a ++ "/" ++ b
       end.

(** [path.replace(".csv", "_legacy.csv")]: every occurrence, left to
    right, not overlapping. *)
Fixpoint legacy_path (path : string) : string :=
  match path with
  | EmptyString => EmptyString
  | String c1 r1 =>
      match r1 with
      | String c2 (String c3 (String c4 r4)) =>
          if Ascii.eqb c1 "." && Ascii.eqb c2 "c"
             && Ascii.eqb c3 "s" && Ascii.eqb c4 "v"
          then "_legacy.csv" ++ legacy_path r4
          else String c1 (legacy_path r1)
      | _ => String c1 (legacy_path r1)
      end
  end.

(** [int(x)] of a number: truncation toward zero. *)
Definition int_of (x : Q) : Z := Z.quot (Qnum x) (Zpos (Qden x)).

Definition cell_of (v : option Q) : cell :=
  match v with
  | None => CEmpty
  | Some x => CFloat x
  end.

Section WithDataDir.

(** [DATA_DIR], from the environment (default ["data"]). *)
Variable DATA_DIR : string.

Definition fpath (device : string) (k : kind) : string :=
  match k with
  | Meta => path_join DATA_DIR (device ++ "_meta.json")
  | Clean => path_join DATA_DIR (device ++ "" ++ ".csv")
  | Raw => path_join DATA_DIR (device ++ "_raw" ++ ".csv")
  end.

(** The column count that [rotate_if_mismatch] reads off a file. *)
Definition actual_cols (f : csv_file) : nat :=
  let header := Csv.strip (Csv.readline (Csv.writerow (header f))) in
  match header with
  | EmptyString => 0
  | _ => Csv.count "," header + 1
  end.

(** [os.replace(src, dst)] *)
Definition os_replace (src dst : string) (fs : filesystem) : filesystem :=
  match csv fs !! src with
  | None => fs
  | Some f => Filesystem (<[dst := f]> (delete src (csv fs))) (meta fs)
  end.

Definition rotate_if_mismatch (path : string) (expected_cols : nat)
    (fs : filesystem) : filesystem :=
  match csv fs !! path with
  | None => fs
  | Some f =>
      if bool_decide (actual_cols f ≠ expected_cols)
      then os_replace path (legacy_path path) fs
      else fs
  end.

(** Python truth of [names and len(names) == n]. *)
Definition names_usable (names : option (list string)) (n : nat)
    : option (list string) :=
  match names with
  | Some ((_ :: _) as ns) => if bool_decide (length ns = n) then Some ns else None
  | _ => None
  end.

Definition make_header (sfx : string) (names : option (list string))
    (n : nat) : list string :=
  app ["ts_s"; "ts_ms"]
    match names_usable names n with
    | Some ns => map (λ nm, nm ++ sfx) ns
    | None => map (λ i : nat, "t" ++ pretty i ++ sfx) (seq 0 n)
    end.

(** [if not os.path.exists(p): open(p, "w"); writerow(h)] *)
Definition create_if_missing (path : string) (h : list string)
    (fs : filesystem) : filesystem :=
  match csv fs !! path with
  | Some _ => fs
  | None => Filesystem (<[path := CsvFile h []]> (csv fs)) (meta fs)
  end.

(** [if names and not os.path.exists(meta_json): json.dump(...)] *)
Definition write_meta_once (path : string) (names : option (list string))
    (fs : filesystem) : filesystem :=
  match names, meta fs !! path with
  | Some ((_ :: _) as ns), None => Filesystem (csv fs) (<[path := ns]> (meta fs))
  | _, _ => fs
  end.

(** [open(p, "a"); writerow(row)].  The file exists whenever [ingest]
    appends (it has just been created if it was missing), so the
    creation that mode ["a"] would perform is not modelled. *)
Definition append_row (path : string) (row : list cell)
    (fs : filesystem) : filesystem :=
  Filesystem
    (alter (λ f, CsvFile (header f) ((rows f ++ [row])%list)) path (csv fs))
    (meta fs).

(** [isinstance(raw, list) and len(raw) == n], with the list. *)
Definition list_of_len (v : jvalue) (n : nat) : option (list (option Q)) :=
  match v with
  | JList vs => if bool_decide (length vs = n) then Some vs else None
  | JOther => None
  end.

(** Rotation, headers and metadata: the state in which the rows are
    appended. *)
Definition prepare (device : string) (names : option (list string))
    (n : nat) (fs : filesystem) : filesystem :=
  let clean_csv := fpath device Clean in
  let raw_csv := fpath device Raw in
  let meta_json := fpath device Meta in
  let fs := rotate_if_mismatch clean_csv (2 + n) fs in
  let fs := rotate_if_mismatch raw_csv (2 + n) fs in
  let fs := create_if_missing clean_csv (make_header "_C" names n) fs in
  let fs := create_if_missing raw_csv (make_header "_raw" names n) fs in
  write_meta_once meta_json names fs.

Definition ts_seconds (ts_ms : Q) : Z := Qfloor (ts_ms / 1000 + 0.5).

Definition ingest (data : payload) (fs : filesystem)
    : filesystem * response :=
  let device := default "unknown" (p_device data) in
  let names := p_names data in
  let temps := default (JList []) (p_temps data) in
  let raw := default (JList []) (p_raw data) in
  match p_ts data, temps with
  | Some ts_ms, JList ((_ :: _) as temps) =>
      let ts_s := ts_seconds ts_ms in
      let clean_csv := fpath device Clean in
      let raw_csv := fpath device Raw in
      let n := length temps in
      let fs := prepare device names n fs in
      let row := ([CInt ts_s; CInt (int_of ts_ms)] ++ map cell_of temps)%list in
      let fs := append_row clean_csv row fs in
      let fs :=
        match list_of_len raw n with
        | Some raw =>
            let row_raw :=
              ([CInt ts_s; CInt (int_of ts_ms)] ++ map cell_of raw)%list in
            append_row raw_csv row_raw fs
        | None => fs
        end in
      (fs, Response 200 (Saved n))
  | _, _ => (fs, Response 400 BadPayload)
  end.



(** [GET /data/{device}/names.json]: the names of the metadata file,
    [None] for the body [{"names": null}] served when there is none. *)
Definition get_names (device : string) (fs : filesystem)
    : option (list string) :=
  meta fs !! fpath device Meta.

(** A run of the service: the requests handled one after the other. *)
Fixpoint ingest_all (reqs : list payload) (fs : filesystem) : filesystem :=
  match reqs with
  | [] => fs
  | data :: reqs' => ingest_all reqs' (fst (ingest data fs))
  end.

End WithDataDir.

End Api.

(** ** dashboard/app.py *)

Module Dashboard.

(** A row of the data frame read from the clean CSV: its time in
    seconds ([abs_s], taken from the integer column [ts_s]) and the
    cells of its value columns; a missing cell (NaN) is [None].  The
    frame comes straight from [read_csv], so the index label of a row
    is its position. *)
Record row : Type := Row {
  abs_s : Z;
  values : list (option Q)
}.

(** *** Reset handling *)

(** [Series.diff()]: no value for the first row. *)
Fixpoint diff_from (prev : Z) (xs : list Z) : list (option Z) :=
  match xs with
  | [] => []
  | x :: xs' => Some (x - prev)%Z :: diff_from x xs'
  end.

Definition diff (xs : list Z) : list (option Z) :=
  match xs with
  | [] => []
  | x :: xs' => None :: diff_from x xs'
  end.

(** [df["abs_s"].diff().fillna(0) < 0] *)
Definition dec (df : list row) : list bool :=
  map (λ d, (default 0 d <? 0)%Z) (diff (map abs_s df)).

(** [df.index[dec]]: the labels at which the mask holds, from label [i]. *)
Fixpoint index_where (i : nat) (mask : list bool) : list nat :=
  match mask with
  | [] => []
  | b :: mask' =>
      if b then i :: index_where (S i) mask' else index_where (S i) mask'
  end.

(** [.max()] of a sequence of labels, when there is one. *)
Definition index_max (labels : list nat) : option nat :=
  match labels with
  | [] => None
  | i :: labels' => Some (foldl Nat.max i labels')
  end.

Definition trim (trim_reset : bool) (df : list row) : list row :=
  if trim_reset && (1 <? length df)%nat then
    match index_max (index_where 0 (dec df)) with
    | Some last => drop (last + 1) df        (* df.loc[last+1:] *)
    | None => df                             (* not dec.any() *)
    end
  else df.

(** *** Last N minutes *)

Definition list_min (x : Z) (xs : list Z) : Z := foldl Z.min x xs.

(** The windowed frame with its new column [time_s]; [None] is the
    [IndexError] that [iloc[-1]] raises on an empty frame. *)
Definition window (mins : Z) (df : list row) : option (list (Z * row)) :=
  match last df with
  | None => None
  | Some r =>
      let now_s := abs_s r in
      let cut := (now_s - mins * 60)%Z in
      let df := filter (λ r, (cut ≤ abs_s r)%Z) df in
      match map abs_s df with
      | [] => Some []
      | x :: xs =>
          let m := list_min x xs in
          Some (map (λ r, ((abs_s r - m)%Z, r)) df)
      end
  end.

Definition reconstruct (trim_reset : bool) (mins : Z) (df : list row)
    : option (list (Z * row)) :=
  window mins (trim trim_reset df).

(** *** Sensor columns and their names *)

(** [c.endswith("_C")] *)
Fixpoint ends_with_C (c : string) : bool :=
  match c with
  | EmptyString => false
  | String a c' => String.eqb c "_C" || ends_with_C c'
  end.

Definition val_cols (columns : list string) : list string :=
  filter (λ c, ends_with_C c = true) columns.

Definition is_digit (c : ascii) : bool :=
  let n := nat_of_ascii c in (48 <=? n)%nat && (n <=? 57)%nat.

Fixpoint after_digits (s : string) : string :=
  match s with
  | EmptyString => EmptyString
  | String c s' => if is_digit c then after_digits s' else s
  end.

(** [tpat.match(col)] for [tpat = ^t(\d+)_C$], with the digits 0 to 9;
    the final [$] also accepts one trailing line feed. *)
Definition tpat_match (col : string) : bool :=
  match col with
  | String c (String d _ as ds) =>
      Ascii.eqb c "t" && is_digit d
      && (String.eqb (after_digits ds) "_C"
          || String.eqb (after_digits ds) (String "_" (String "C" (String Csv.LF EmptyString))))
  | _ => false
  end.

(** [enumerate(val_cols)] *)
Definition enumerate {A} (l : list A) : list (nat * A) :=
  zip (seq 0 (length l)) l.

(** Python truth of [name_overrides and len(name_overrides) == n];
    [name_overrides] is [None] when names.json could not be used. *)
Definition usable_names (name_overrides : option (list string)) (n : nat)
    : option (list string) :=
  match name_overrides with
  | Some ((_ :: _) as names) =>
      if bool_decide (length names = n) then Some names else None
  | _ => None
  end.

(** The dictionary [rename_map]; a later assignment to the same key
    replaces an earlier one. *)
Definition rename_map (name_overrides : option (list string))
    (val_cols : list string) : gmap string string :=
  match usable_names name_overrides (length val_cols) with
  | Some names =>
      foldl (λ (m : gmap string string) '(i, col),
               if tpat_match col
               then <[col := default "" (names !! i) ++ "_C"]> m
               else m)
            ∅ (enumerate val_cols)
  | None =>
      if forallb tpat_match val_cols then
        foldl (λ (m : gmap string string) '(i, col),
                 <[col := "Sensor" ++ pretty (i + 1)%nat ++ "_C"]> m)
              ∅ (enumerate val_cols)
      else ∅
  end.

(** [[rename_map.get(c, c) for c in val_cols]], also what
    [df.rename(columns=rename_map)] does to the column labels. *)
Definition rename (m : gmap string string) (cols : list string)
    : list string :=
  map (λ c, default c (m !! c)) cols.

Definition renamed_val_cols (name_overrides : option (list string))
    (val_cols : list string) : list string :=
  rename (rename_map name_overrides val_cols) val_cols.

(** *** Rounding *)


End Dashboard.

Import Api Dashboard.

(** ** Vocabulary of the properties *)

(** The file a path holds once rotation and header creation are done,
    from what it held before ([None]: no file): an existing file whose
    column count is the expected one is kept, anything else gives way to
    a fresh file with header [h]. *)
Definition prepared_file (h : list string) (n : nat)
    (old : option csv_file) : csv_file :=
  match old with
  | Some f => if bool_decide (actual_cols f = 2 + n) then f else CsvFile h []
  | None => CsvFile h []
  end.

(** The data rows of the series at a path (none without a file), and
    their number. *)
Definition rows_at (path : string) (fs : filesystem) : list (list cell) :=
  match csv fs !! path with
  | Some f => rows f
  | None => []
  end.


(** The file at [path] exists and a call with [n] sensors rotates it. *)
Definition rotated (path : string) (n : nat) (fs : filesystem) : bool :=
  match csv fs !! path with
  | Some f => bool_decide (actual_cols f ≠ 2 + n)
  | None => false
  end.

(** A request that passes validation: [ts] present, [temps] a non-empty
    sequence. *)
Definition accepted (data : payload) (ts_ms : Q) (temps : list (option Q))
    : Prop :=
  p_ts data = Some ts_ms ∧ p_temps data = Some (JList temps) ∧ temps ≠ [].

Definition device_of (data : payload) : string :=
  default "unknown" (p_device data).

(** The raw array of a request when it is a sequence of length [n]. *)
Definition raw_of_len (data : payload) (n : nat) : option (list (option Q)) :=
  list_of_len (default (JList []) (p_raw data)) n.

(** The data row written for a time stamp and an array of readings. *)
Definition data_row (ts_ms : Q) (vs : list (option Q)) : list cell :=
  CInt (ts_seconds ts_ms) :: CInt (int_of ts_ms) :: map cell_of vs.

(** Every data row of a file has as many cells as the header has
    fields. *)
Definition consistent (f : csv_file) : Prop :=
  Forall (λ row, length row = length (header f)) (rows f).


(** A frame with the given times and no value columns. *)
Definition frame_of_times (ts : list Z) : list row :=
  map (λ t, Row t []) ts.

(** The renaming as the specification words it: the names when their
    count matches and the columns follow the positional pattern, else
    [Sensor1], [Sensor2], ... when the columns follow the pattern, else
    no change. *)
Definition claimed_val_cols (name_overrides : option (list string))
    (val_cols : list string) : list string :=
  let positional := forallb tpat_match val_cols in
  match usable_names name_overrides (length val_cols) with
  | Some names =>
      if positional then map (λ nm, nm ++ "_C") names else val_cols
  | None =>
      if positional
      then map (λ i : nat, "Sensor" ++ pretty (i + 1)%nat ++ "_C")
             (seq 0 (length val_cols))
      else val_cols
  end.

(** The mask of decreases of the rows that follow a row of time [prev]. *)
Definition decs (prev : Z) (rows : list row) : list bool :=
  map (λ d, (default 0 d <? 0)%Z) (diff_from prev (map abs_s rows)).

(** [".csv" in s] *)
Fixpoint has_csv (s : string) : bool :=
  match s with
  | EmptyString => false
  | String _ s' => String.prefix ".csv" s || has_csv s'
  end.

(** A request whose sensor names are written to the header as they
    are: no comma, quote, carriage return or line feed in them. *)
Definition plain_names (data : payload) : Prop :=
  ∀ names, p_names data = Some names →
    Forall (λ nm, Csv.needs_quote nm = false) names.


(** Whether a request passes validation. *)
Definition passes (data : payload) : bool :=
  match p_ts data, p_temps data with
  | Some _, Some (JList (_ :: _)) => true
  | _, _ => false
  end.

(** The row that an accepted request appends to the clean series. *)
Definition clean_row_of (data : payload) : list cell :=
  match p_ts data, p_temps data with
  | Some ts_ms, Some (JList temps) => data_row ts_ms temps
  | _, _ => []
  end.

(** A request of device [d] that passes validation with [n] readings. *)
Definition reading_of (d : string) (n : nat) (data : payload) : Prop :=
  device_of data = d
  ∧ ∃ ts_ms temps, accepted data ts_ms temps ∧ length temps = n.



(** * Properties *)

(** ** Text and paths *)

Lemma string_length_app (a b : string) :
  String.length (a ++ b) = String.length a + String.length b.
Proof. induction a as [|c a IH]; simpl; [done | by rewrite IH]. Qed.

(** The first line of a file is the first line of its written header,
    whatever rows follow it. *)
Lemma readline_terminated (a rest : string) :
  Csv.readline ((a ++ Csv.lineterminator) ++ rest)
  = Csv.readline (a ++ Csv.lineterminator).
Proof.
  induction a as [|c a IH]; simpl; [done |].
  destruct (Ascii.eqb c Csv.CR || Ascii.eqb c Csv.LF); [done | by rewrite IH].
Qed.

Lemma readline_writerow_app (h : list string) (rest : string) :
  Csv.readline (Csv.writerow h ++ rest) = Csv.readline (Csv.writerow h).
Proof.
  unfold Csv.writerow.
  destruct h as [|[|c f] [|g h]]; try apply readline_terminated.
  reflexivity.
Qed.

Lemma legacy_path_cons (c1 : ascii) (r1 : string) :
  legacy_path (String c1 r1)
  = match r1 with
    | String c2 (String c3 (String c4 r4)) =>
        if Ascii.eqb c1 "." && Ascii.eqb c2 "c"
           && Ascii.eqb c3 "s" && Ascii.eqb c4 "v"
        then "_legacy.csv" ++ legacy_path r4
        else String c1 (legacy_path r1)
    | _ => String c1 (legacy_path r1)
    end.
Proof. reflexivity. Qed.

(** [path.replace] never shortens a path, and lengthens it by a multiple
    of seven characters. *)
Lemma legacy_path_length_bounded (n : nat) (s : string) :
  (String.length s ≤ n)%nat →
  ∃ k, String.length (legacy_path s) = String.length s + 7 * k.
Proof.
  revert s. induction n as [|n IH]; intros s Hs.
  - destruct s; simpl in Hs; [by exists 0 | lia].
  - destruct s as [|c1 r1]; [by exists 0 |].
    assert (Hr1 : ∃ k, String.length (legacy_path r1)
                       = String.length r1 + 7 * k)
      by (apply IH; simpl in Hs; lia).
    destruct Hr1 as [k1 Hk1].
    rewrite legacy_path_cons.
    destruct r1 as [|c2 [|c3 [|c4 r4]]];
      try (exists k1; cbn [String.length] in *; lia).
    destruct (Ascii.eqb c1 "." && Ascii.eqb c2 "c"
              && Ascii.eqb c3 "s" && Ascii.eqb c4 "v").
    + destruct (IH r4) as [k4 Hk4]; [simpl in Hs; lia |].
      exists (S k4). rewrite string_length_app, Hk4. simpl. lia.
    + exists k1. cbn [String.length] in *. lia.
Qed.

Lemma legacy_path_length (s : string) :
  ∃ k, String.length (legacy_path s) = String.length s + 7 * k.
Proof. by apply (legacy_path_length_bounded (String.length s)). Qed.

(** A path that ends in [.csv] is strictly lengthened. *)
Lemma legacy_path_csv_longer (x : string) :
  String.length (x ++ ".csv") < String.length (legacy_path (x ++ ".csv")).
Proof.
  induction x as [|c x IH]; [simpl; lia |].
  change (String c x ++ ".csv") with (String c (x ++ ".csv")).
  rewrite legacy_path_cons.
  destruct (x ++ ".csv") as [|c2 [|c3 [|c4 r4]]] eqn:E;
    try (cbn [String.length] in *; lia).
  destruct (Ascii.eqb c "." && Ascii.eqb c2 "c"
            && Ascii.eqb c3 "s" && Ascii.eqb c4 "v").
  - destruct (legacy_path_length r4) as [k Hk].
    rewrite string_length_app, Hk. simpl. lia.
  - cbn [String.length] in *. lia.
Qed.

Lemma string_app_cons (x : ascii) (a b : string) :
  String x a ++ b = String x (a ++ b).
Proof. reflexivity. Qed.

Lemma string_app_assoc (a b c : string) : (a ++ b) ++ c = a ++ (b ++ c).
Proof.
  induction a as [|x a IH]; [done |].
  by rewrite !string_app_cons, IH.
Qed.

Lemma prefix_nil (s : string) : String.prefix "" s = true.
Proof. by destruct s. Qed.

Section Paths.

Variable DATA_DIR : string.

Lemma path_join_suffix (a d sfx : string) :
  ∃ x, path_join a (d ++ sfx) = x ++ sfx.
Proof.
  unfold path_join.
  destruct (String.prefix "/" (d ++ sfx)); [by exists d |].
  destruct a as [|c a]; [by exists d |].
  destruct (ends_with_slash (String c a)).
  - exists (String c a ++ d). symmetry. apply string_app_assoc.
  - exists (String c a ++ "/" ++ d).
    rewrite (string_app_assoc (String c a) ("/" ++ d) sfx).
    by rewrite (string_app_assoc "/" d sfx).
Qed.

Lemma path_join_length (a d s1 s2 : string) :
  String.prefix "/" (d ++ s1) = String.prefix "/" (d ++ s2) →
  String.length (path_join a (d ++ s1)) + String.length s2
  = String.length (path_join a (d ++ s2)) + String.length s1.
Proof.
  intros Hp. unfold path_join. rewrite Hp.
  destruct (String.prefix "/" (d ++ s2)).
  - rewrite !string_length_app. lia.
  - destruct a as [|c a]; [rewrite !string_length_app; lia |].
    destruct (ends_with_slash (String c a));
      rewrite !string_length_app; simpl; rewrite ?string_length_app; lia.
Qed.

Lemma fpath_raw_length (device : string) :
  String.length (fpath DATA_DIR device Raw)
  = String.length (fpath DATA_DIR device Clean) + 4.
Proof.
  unfold fpath.
  pose proof (path_join_length DATA_DIR device ("" ++ ".csv")
                ("_raw" ++ ".csv")) as H.
  change (String.length ("" ++ ".csv")) with 4 in H.
  change (String.length ("_raw" ++ ".csv")) with 8 in H.
  assert (Hp : String.prefix "/" (device ++ "" ++ ".csv")
               = String.prefix "/" (device ++ "_raw" ++ ".csv")).
  { destruct device as [|c d]; [done |].
    rewrite !string_app_cons. cbn [String.prefix].
    destruct (ascii_dec "/" c); [| done].
    by rewrite !prefix_nil. }
  specialize (H Hp). lia.
Qed.

Lemma fpath_clean_ne_raw (device : string) :
  fpath DATA_DIR device Clean ≠ fpath DATA_DIR device Raw.
Proof.
  intros E. pose proof (fpath_raw_length device) as H.
  rewrite <- E in H. lia.
Qed.

Lemma fpath_csv_suffix (device : string) (k : kind) :
  k ≠ Meta → ∃ x, fpath DATA_DIR device k = x ++ ".csv".
Proof.
  intros Hk. destruct k; [| | done]; unfold fpath.
  - apply path_join_suffix.
  - destruct (path_join_suffix DATA_DIR (device ++ "_raw") ".csv") as [x Hx].
    exists x. rewrite <- Hx. by rewrite (string_app_assoc device "_raw" ".csv").
Qed.

Lemma legacy_fpath_longer (device : string) (k : kind) :
  k ≠ Meta →
  String.length (fpath DATA_DIR device k)
  < String.length (legacy_path (fpath DATA_DIR device k)).
Proof.
  intros Hk. destruct (fpath_csv_suffix device k Hk) as [x ->].
  apply legacy_path_csv_longer.
Qed.

(** Within one call, rotation never moves a file onto the device's
    live clean or raw file. *)
Lemma legacy_ne_live (device : string) (k k' : kind) :
  k ≠ Meta → k' ≠ Meta →
  legacy_path (fpath DATA_DIR device k) ≠ fpath DATA_DIR device k'.
Proof.
  intros Hk Hk' E.
  pose proof (legacy_fpath_longer device k Hk) as Hlt.
  destruct (legacy_path_length (fpath DATA_DIR device k)) as [n Hn].
  pose proof (fpath_raw_length device) as Hraw.
  rewrite E in Hlt, Hn.
  destruct k, k'; try done; lia.
Qed.

End Paths.

(** ** The file operations, read through [csv fs !! p] *)

Lemma rotate_lookup (path : string) (E : nat) (fs : filesystem) (p : string) :
  csv (rotate_if_mismatch path E fs) !! p
  = match csv fs !! path with
    | Some f =>
        if bool_decide (actual_cols f ≠ E) then
          if decide (p = legacy_path path) then Some f
          else if decide (p = path) then None
          else csv fs !! p
        else csv fs !! p
    | None => csv fs !! p
    end.
Proof.
  unfold rotate_if_mismatch, os_replace.
  destruct (csv fs !! path) as [f|] eqn:Hf; [| done].
  case_bool_decide; [| done]. simpl.
  destruct (decide (p = legacy_path path)) as [->|Hl].
  - by rewrite lookup_insert_eq.
  - rewrite lookup_insert_ne by done.
    destruct (decide (p = path)) as [->|Hp].
    + by rewrite lookup_delete_eq.
    + by rewrite lookup_delete_ne.
Qed.

Lemma rotate_meta (path : string) (E : nat) (fs : filesystem) :
  meta (rotate_if_mismatch path E fs) = meta fs.
Proof.
  unfold rotate_if_mismatch, os_replace.
  destruct (csv fs !! path); [| done]. by case_bool_decide.
Qed.

Lemma create_lookup (path : string) (h : list string) (fs : filesystem)
    (p : string) :
  csv (create_if_missing path h fs) !! p
  = if decide (p = path)
    then Some (default (CsvFile h []) (csv fs !! path))
    else csv fs !! p.
Proof.
  unfold create_if_missing.
  destruct (csv fs !! path) as [f|] eqn:Hf; simpl.
  - destruct (decide (p = path)) as [->|]; [done | done].
  - destruct (decide (p = path)) as [->|].
    + by rewrite lookup_insert_eq.
    + by rewrite lookup_insert_ne.
Qed.

Lemma write_meta_csv (path : string) (names : option (list string))
    (fs : filesystem) :
  csv (write_meta_once path names fs) = csv fs.
Proof.
  unfold write_meta_once.
  destruct names as [[|nm ns]|]; try done. by destruct (meta fs !! path).
Qed.

Lemma append_lookup (path : string) (row : list cell) (fs : filesystem)
    (p : string) :
  csv (append_row path row fs) !! p
  = if decide (p = path)
    then (λ f, CsvFile (header f) (rows f ++ [row])%list) <$> csv fs !! path
    else csv fs !! p.
Proof.
  unfold append_row. simpl.
  destruct (decide (p = path)) as [->|Hp].
  - by rewrite lookup_alter_eq.
  - by rewrite lookup_alter_ne.
Qed.

Lemma rotate_lookup_other (path : string) (E : nat) (fs : filesystem)
    (p : string) :
  p ≠ path → p ≠ legacy_path path →
  csv (rotate_if_mismatch path E fs) !! p = csv fs !! p.
Proof.
  intros Hp Hl. rewrite rotate_lookup.
  destruct (csv fs !! path); [| done].
  case_bool_decide; [| done].
  by rewrite !decide_False.
Qed.

Lemma rotate_lookup_self (path : string) (E : nat) (fs : filesystem) :
  legacy_path path ≠ path →
  csv (rotate_if_mismatch path E fs) !! path
  = match csv fs !! path with
    | Some f => if bool_decide (actual_cols f = E) then Some f else None
    | None => None
    end.
Proof.
  intros Hl. rewrite rotate_lookup.
  destruct (csv fs !! path) as [f|] eqn:Hf; [| done].
  repeat case_bool_decide; try done.
  rewrite decide_False by done. by rewrite decide_True.
Qed.

Section Prepare.

Variable DATA_DIR : string.

Lemma prepare_lookup_clean (device : string) (names : option (list string))
    (n : nat) (fs : filesystem) :
  csv (prepare DATA_DIR device names n fs) !! fpath DATA_DIR device Clean
  = Some (prepared_file (make_header "_C" names n) n
            (csv fs !! fpath DATA_DIR device Clean)).
Proof.
  pose proof (fpath_clean_ne_raw DATA_DIR device) as Hcr.
  pose proof (legacy_ne_live DATA_DIR device Clean Clean) as Hcc.
  pose proof (legacy_ne_live DATA_DIR device Raw Clean) as Hrc.
  unfold prepare. rewrite write_meta_csv.
  rewrite create_lookup, decide_False by done.
  rewrite create_lookup, decide_True by done.
  rewrite rotate_lookup_other by (try done; intros E; by apply Hrc).
  rewrite rotate_lookup_self by (by apply Hcc).
  unfold prepared_file.
  destruct (csv fs !! fpath DATA_DIR device Clean) as [f|]; [| done].
  by case_bool_decide.
Qed.


End Prepare.

(** ** One call of [ingest] *)

Section Ingest.

Variable DATA_DIR : string.

Lemma ingest_accepted (data : payload) (fs : filesystem) (ts_ms : Q)
    (temps : list (option Q)) :
  accepted data ts_ms temps →
  ingest DATA_DIR data fs
  = (let n := length temps in
     let fs0 := prepare DATA_DIR (device_of data) (p_names data) n fs in
     let fs1 :=
       append_row (fpath DATA_DIR (device_of data) Clean)
         (data_row ts_ms temps) fs0 in
     match raw_of_len data n with
     | Some raw =>
         append_row (fpath DATA_DIR (device_of data) Raw)
           (data_row ts_ms raw) fs1
     | None => fs1
     end,
     Response 200 (Saved (length temps))).
Proof.
  intros (Hts & Htemps & Hne). unfold ingest. rewrite Hts, Htemps. simpl.
  destruct temps as [|t temps]; [done |]. reflexivity.
Qed.

(** The clean file after an accepted request: the prepared file and
    one more row. *)
Lemma ingest_clean_file (data : payload) (fs : filesystem) (ts_ms : Q)
    (temps : list (option Q)) :
  accepted data ts_ms temps →
  let pf := prepared_file (make_header "_C" (p_names data) (length temps))
              (length temps)
              (csv fs !! fpath DATA_DIR (device_of data) Clean) in
  csv (ingest DATA_DIR data fs).1 !! fpath DATA_DIR (device_of data) Clean
  = Some (CsvFile (header pf) (rows pf ++ [data_row ts_ms temps])%list).
Proof.
  intros Hacc pf. rewrite (ingest_accepted _ _ _ _ Hacc). cbv zeta. cbn [fst].
  pose proof (fpath_clean_ne_raw DATA_DIR (device_of data)) as Hcr.
  destruct (raw_of_len data (length temps)).
  - rewrite append_lookup, decide_False by done.
    rewrite append_lookup, decide_True by done.
    by rewrite prepare_lookup_clean.
  - rewrite append_lookup, decide_True by done.
    by rewrite prepare_lookup_clean.
Qed.


End Ingest.

(** ** Validation (C6) *)

Section Validation.

Variable DATA_DIR : string.


End Validation.


(** ** Seconds from milliseconds (C3) *)



Section Seconds.

Variable DATA_DIR : string.


End Seconds.


(** ** Rows appended by one call (C4) *)


Section Rows.

Variable DATA_DIR : string.


End Rows.


(** ** Rotation (C5) *)

(** What [rotate_if_mismatch] does to an existing file: it is moved to
    the legacy path when the counted columns differ from the expected
    ones, and nothing changes otherwise. *)
Lemma rotate_if_mismatch_existing (path : string) (E : nat)
    (fs : filesystem) (f : csv_file) :
  csv fs !! path = Some f →
  rotate_if_mismatch path E fs
  = if bool_decide (actual_cols f ≠ E)
    then Filesystem (<[legacy_path path := f]> (delete path (csv fs))) (meta fs)
    else fs.
Proof.
  intros Hf. unfold rotate_if_mismatch, os_replace. rewrite Hf.
  by case_bool_decide.
Qed.

Lemma ascii_dec_eqb (a b : ascii) (X : bool) :
  (if ascii_dec a b then X else false) = Ascii.eqb b a && X.
Proof.
  destruct (ascii_dec a b) as [->|H]; [by rewrite Ascii.eqb_refl |].
  by replace (Ascii.eqb b a) with false
    by (symmetry; apply Ascii.eqb_neq; congruence).
Qed.

Lemma prefix_csv (c1 c2 c3 c4 : ascii) (r : string) :
  String.prefix ".csv" (String c1 (String c2 (String c3 (String c4 r))))
  = Ascii.eqb c1 "." && Ascii.eqb c2 "c"
    && Ascii.eqb c3 "s" && Ascii.eqb c4 "v".
Proof.
  cbn [String.prefix].
  rewrite !ascii_dec_eqb, prefix_nil, andb_true_r.
  by rewrite !andb_assoc.
Qed.

(** A path without [.csv] is its own legacy path. *)
Lemma legacy_path_no_csv (s : string) :
  has_csv s = false → legacy_path s = s.
Proof.
  induction s as [|c1 r1 IH]; [done |].
  cbn [has_csv]. intros [Hp Hr]%orb_false_iff.
  rewrite legacy_path_cons, (IH Hr).
  destruct r1 as [|c2 [|c3 [|c4 r4]]]; try done.
  by rewrite <- (prefix_csv c1 c2 c3 c4 r4), Hp.
Qed.

Lemma legacy_path_cons_no (c1 : ascii) (r1 : string) :
  String.prefix ".csv" (String c1 r1) = false →
  legacy_path (String c1 r1) = String c1 (legacy_path r1).
Proof.
  rewrite legacy_path_cons.
  destruct r1 as [|c2 [|c3 [|c4 r4]]]; try done.
  rewrite prefix_csv. by intros ->.
Qed.

Lemma legacy_path_cons_yes (c1 c2 c3 c4 : ascii) (r4 : string) :
  String.prefix ".csv" (String c1 (String c2 (String c3 (String c4 r4))))
  = true →
  legacy_path (String c1 (String c2 (String c3 (String c4 r4))))
  = "_legacy.csv" ++ legacy_path r4.
Proof. rewrite legacy_path_cons, prefix_csv. by intros ->. Qed.

Ltac no_csv_prefix :=
  rewrite prefix_csv;
  repeat match goal with
         | |- context [Ascii.eqb ?c _] => is_var c; destruct (Ascii.eqb c _)
         end;
  reflexivity.

(** The suffix [.csv] is replaced, and so is every [.csv] before it. *)
Lemma legacy_path_app_csv_bounded (n : nat) (x : string) :
  (String.length x ≤ n)%nat →
  legacy_path (x ++ ".csv") = legacy_path x ++ "_legacy.csv".
Proof.
  revert x. induction n as [|n IH]; intros x Hx.
  - destruct x; [done | simpl in Hx; lia].
  - destruct x as [|c1 x]; [done |]. simpl in Hx.
    rewrite string_app_cons.
    destruct x as [|c2 [|c3 [|c4 x]]].
    + change ("" ++ ".csv") with ".csv".
      rewrite legacy_path_cons_no by no_csv_prefix. reflexivity.
    + change (String c2 "" ++ ".csv") with (String c2 ".csv").
      rewrite legacy_path_cons_no by no_csv_prefix.
      change (String c2 ".csv") with (String c2 "" ++ ".csv").
      rewrite (IH (String c2 "")) by (simpl in *; lia). reflexivity.
    + change (String c2 (String c3 "") ++ ".csv")
        with (String c2 (String c3 ".csv")).
      rewrite legacy_path_cons_no by no_csv_prefix.
      change (String c2 (String c3 ".csv"))
        with (String c2 (String c3 "") ++ ".csv").
      rewrite (IH (String c2 (String c3 ""))) by (simpl in *; lia). reflexivity.
    + rewrite !string_app_cons.
      destruct (String.prefix ".csv"
                  (String c1 (String c2 (String c3 (String c4 x))))) eqn:Hp.
      * rewrite (legacy_path_cons_yes _ _ _ _ x Hp).
        rewrite legacy_path_cons_yes by (by rewrite prefix_csv, <- (prefix_csv _ _ _ _ x)).
        rewrite (IH x) by (simpl in Hx; lia).
        by rewrite (string_app_assoc "_legacy.csv").
      * rewrite (legacy_path_cons_no _ _ Hp).
        rewrite legacy_path_cons_no by (by rewrite prefix_csv, <- (prefix_csv _ _ _ _ x)).
        rewrite <- !string_app_cons.
        by rewrite (IH (String c2 (String c3 (String c4 x)))) by (simpl in *; lia).
Qed.

Lemma legacy_path_app_csv (x : string) :
  legacy_path (x ++ ".csv") = legacy_path x ++ "_legacy.csv".
Proof. by apply (legacy_path_app_csv_bounded (String.length x)). Qed.

(** Where [.csv] occurs in the path only as its suffix, the legacy path
    is the path with that suffix replaced, and the file is moved there
    exactly when the counted columns differ from the expected ones. *)
Lemma rotate_if_mismatch_suffix (x : string) (E : nat) (fs : filesystem)
    (f : csv_file) :
  has_csv x = false →
  csv fs !! (x ++ ".csv") = Some f →
  rotate_if_mismatch (x ++ ".csv") E fs
  = if bool_decide (actual_cols f ≠ E)
    then Filesystem (<[x ++ "_legacy.csv" := f]>
                       (delete (x ++ ".csv") (csv fs))) (meta fs)
    else fs.
Proof.
  intros Hx Hf. rewrite (rotate_if_mismatch_existing _ _ _ _ Hf).
  by rewrite legacy_path_app_csv, (legacy_path_no_csv _ Hx).
Qed.

(** C5 (failing input).  The device ["a.csv"] has the clean file
    [data/a.csv.csv].  When a call with another sensor count rotates
    it, the file does not go to [data/a.csv_legacy.csv], the path with
    the suffix replaced, but to [data/a_legacy.csv_legacy.csv]: the
    replacement is applied to every [.csv] of the path. *)
Lemma rotate_legacy_name_failing_input :
  let first := Payload (Some "a.csv") (Some 1000%Q) None
                 (Some (JList [Some 21.5%Q])) None in
  let fs := (ingest "data" first empty_fs).1 in
  let path := fpath "data" "a.csv" Clean in
  let fs' := rotate_if_mismatch path (2 + 2) fs in
  path = "data/a.csv.csv"
  ∧ (∃ f, csv fs !! path = Some f ∧ actual_cols f = 3)
  ∧ csv fs' !! path = None
  ∧ csv fs' !! "data/a.csv_legacy.csv" = None
  ∧ csv fs' !! "data/a_legacy.csv_legacy.csv" = csv fs !! path.
Proof.
  repeat split; try (vm_compute; reflexivity).
  eexists. split; vm_compute; reflexivity.
Qed.

(** ** Files that exist stay (C10) *)

Section Runs.

Variable DATA_DIR : string.

Lemma ingest_cases (data : payload) (fs : filesystem) :
  (∃ ts_ms temps, accepted data ts_ms temps)
  ∨ ingest DATA_DIR data fs = (fs, Response 400 BadPayload).
Proof.
  unfold ingest, accepted.
  destruct (p_ts data) as [ts|]; [| by right].
  destruct (p_temps data) as [[[|t temps]|]|]; simpl; try by right.
  left. by exists ts, (t :: temps).
Qed.








End Runs.

(** ** Where the files of the next state come from *)

Section Provenance.

Variable DATA_DIR : string.








End Provenance.


(** ** Rows and header of a series (C9) *)

(** C9 (failing input).  A sensor name with a comma is written quoted,
    so the first line of the file has one comma more than the header has
    separators.  The first request creates a header of three columns
    that counts as four; the second, with two sensors, expects four
    columns, finds four, does not rotate, and appends a row of four
    cells under the header of three. *)
Lemma header_count_failing_input :
  let first := Payload (Some "esp") (Some 1000%Q) (Some ["kitchen, north"])
                 (Some (JList [Some 21.5%Q])) None in
  let second := Payload (Some "esp") (Some 2000%Q) None
                  (Some (JList [Some 21.5%Q; Some 22.5%Q])) None in
  let fs := ingest_all "data" [first; second] empty_fs in
  (ingest "data" first empty_fs).2 = Response 200 (Saved 1)
  ∧ (ingest "data" second (ingest "data" first empty_fs).1).2
    = Response 200 (Saved 2)
  ∧ ∃ f, csv fs !! fpath "data" "esp" Clean = Some f
         ∧ header f = ["ts_s"; "ts_ms"; "kitchen, north_C"]
         ∧ actual_cols f = 4
         ∧ rows f = [[CInt 1; CInt 1000; CFloat 21.5%Q];
                     [CInt 2; CInt 2000; CFloat 21.5%Q; CFloat 22.5%Q]]
         ∧ ¬ consistent f
         ∧ ¬ Forall (λ row, length row = actual_cols f) (rows f).
Proof.
  split; [vm_compute; reflexivity |].
  split; [vm_compute; reflexivity |].
  eexists. split; [vm_compute; reflexivity |].
  split; [reflexivity |]. split; [vm_compute; reflexivity |].
  split; [reflexivity |]. split.
  - unfold consistent. simpl. intros H.
    apply Forall_cons in H as [_ H]. apply Forall_cons in H as [H _].
    discriminate H.
  - intros H. apply Forall_cons in H as [H _]. vm_compute in H.
    discriminate H.
Qed.

(** ** Rows and header stay aligned for plain sensor names *)

Lemma needs_quote_app (a b : string) :
  Csv.needs_quote (a ++ b) = Csv.needs_quote a || Csv.needs_quote b.
Proof.
  induction a as [|c a IH]; [done |].
  rewrite string_app_cons. cbn [Csv.needs_quote].
  by rewrite IH, orb_assoc.
Qed.

Lemma needs_quote_digit (d : N) : Csv.special (pretty_N_char d) = false.
Proof. unfold pretty_N_char. by repeat case_match. Qed.

Lemma needs_quote_pretty_N_go (x : N) (s : string) :
  Csv.needs_quote s = false → Csv.needs_quote (pretty_N_go x s) = false.
Proof.
  revert s. induction (N.lt_wf_0 x) as [x _ IH]; intros s Hs.
  destruct (decide (x = 0)%N) as [->|Hx]; [by rewrite pretty_N_go_0 |].
  rewrite pretty_N_go_step by lia.
  apply IH; [apply N.div_lt; lia |].
  cbn [Csv.needs_quote]. by rewrite needs_quote_digit, Hs.
Qed.

Lemma needs_quote_pretty_nat (i : nat) : Csv.needs_quote (pretty i) = false.
Proof.
  unfold pretty, pretty_nat, pretty, pretty_N.
  case_decide; [done |]. by apply needs_quote_pretty_N_go.
Qed.

Lemma count_app (c : ascii) (a b : string) :
  Csv.count c (a ++ b) = Csv.count c a + Csv.count c b.
Proof.
  induction a as [|d a IH]; [done |].
  rewrite string_app_cons. cbn [Csv.count]. rewrite IH. lia.
Qed.

(** A field that needs no quotes holds none of the special characters. *)
Lemma count_plain (c : ascii) (s : string) :
  Csv.special c = true → Csv.needs_quote s = false → Csv.count c s = 0.
Proof.
  intros Hc. induction s as [|d s IH]; [done |].
  cbn [Csv.needs_quote Csv.count]. intros [Hd Hs]%orb_false_iff.
  rewrite (IH Hs). destruct (Ascii.eqb_spec d c) as [->|]; [congruence | done].
Qed.

Lemma count_join (c : ascii) (h : list string) :
  Csv.special c = true →
  Forall (λ f, Csv.needs_quote f = false) h →
  Csv.count c (Csv.join h)
  = if Ascii.eqb c Csv.delimiter then length h - 1 else 0.
Proof.
  intros Hc Hh. induction Hh as [|f h Hf Hh IH]; [by destruct (Ascii.eqb _ _) |].
  destruct h as [|g h].
  - simpl. rewrite (count_plain _ _ Hc Hf). by destruct (Ascii.eqb _ _).
  - change (Csv.join (f :: g :: h))
      with (f ++ String Csv.delimiter (Csv.join (g :: h))).
    rewrite count_app, (count_plain _ _ Hc Hf). cbn [Csv.count].
    rewrite IH, (Ascii.eqb_sym Csv.delimiter c).
    destruct (Ascii.eqb c Csv.delimiter); simpl; lia.
Qed.

Lemma readline_line (s rest : string) :
  Csv.count Csv.CR s = 0 → Csv.count Csv.LF s = 0 →
  Csv.readline (s ++ String Csv.CR rest) = s ++ String Csv.LF EmptyString.
Proof.
  induction s as [|c s IH]; [done |].
  rewrite !string_app_cons. cbn [Csv.count Csv.readline].
  destruct (Ascii.eqb c Csv.CR), (Ascii.eqb c Csv.LF); simpl; try lia.
  intros H1 H2. by rewrite IH.
Qed.

Lemma count_lstrip (c : ascii) (s : string) :
  Csv.is_space c = false → Csv.count c (Csv.lstrip s) = Csv.count c s.
Proof.
  intros Hc. induction s as [|d s IH]; [done |].
  cbn [Csv.lstrip]. destruct (Csv.is_space d) eqn:Hd; [| done].
  cbn [Csv.count]. rewrite IH.
  destruct (Ascii.eqb_spec d c) as [->|]; [congruence | done].
Qed.

Lemma count_rstrip (c : ascii) (s : string) :
  Csv.is_space c = false → Csv.count c (Csv.rstrip s) = Csv.count c s.
Proof.
  intros Hc. induction s as [|d s IH]; [done |].
  cbn [Csv.rstrip Csv.count]. rewrite <- IH.
  destruct (Csv.rstrip s) as [|e r]; [| done].
  destruct (Csv.is_space d) eqn:Hd; [| done].
  destruct (Ascii.eqb_spec d c) as [->|]; [congruence | done].
Qed.

(** The count that [rotate_if_mismatch] reads off a header of at least
    two plain fields is the number of its fields. *)
Lemma actual_cols_plain (h : list string) (rs : list (list cell)) :
  (2 ≤ length h)%nat →
  Forall (λ f, Csv.needs_quote f = false) h →
  actual_cols (CsvFile h rs) = length h.
Proof.
  intros Hlen Hh. unfold actual_cols. cbn [header].
  assert (Hw : Csv.writerow h = Csv.join h ++ Csv.lineterminator).
  { unfold Csv.writerow.
    replace (map Csv.write_field h) with h.
    - by destruct h as [|[|c f] [|g h]]; simpl in Hlen; try lia.
    - clear Hlen. induction Hh as [|f h Hf Hh IH]; [done |].
      simpl. rewrite <- IH. unfold Csv.write_field. by rewrite Hf. }
  rewrite Hw. unfold Csv.lineterminator.
  rewrite readline_line by (by rewrite count_join).
  assert (Hc : Csv.count "," (Csv.strip (Csv.join h ++ String Csv.LF ""))
               = length h - 1).
  { unfold Csv.strip. rewrite count_rstrip, count_lstrip by done.
    rewrite count_app, (count_join "," h) by done. simpl. lia. }
  destruct (Csv.strip _) as [|c s]; [simpl in Hc; lia |].
  rewrite Hc. lia.
Qed.

Lemma make_header_length (sfx : string) (names : option (list string))
    (n : nat) :
  length (make_header sfx names n) = 2 + n.
Proof.
  unfold make_header, names_usable. rewrite length_app. simpl. f_equal. f_equal.
  destruct names as [[|nm ns]|]; try (by rewrite length_map, length_seq).
  case_bool_decide; rewrite length_map; [done | by rewrite length_seq].
Qed.

Lemma make_header_plain (sfx : string) (names : option (list string))
    (n : nat) :
  Csv.needs_quote sfx = false →
  (∀ ns, names = Some ns → Forall (λ nm, Csv.needs_quote nm = false) ns) →
  Forall (λ f, Csv.needs_quote f = false) (make_header sfx names n).
Proof.
  intros Hsfx Hnames. unfold make_header.
  apply Forall_app. split; [by repeat constructor |].
  assert (Hpos : Forall (λ f, Csv.needs_quote f = false)
                   (map (λ i : nat, "t" ++ pretty i ++ sfx) (seq 0 n))).
  { apply Forall_forall. intros f Hf. apply list_elem_of_In in Hf.
    apply in_map_iff in Hf as (i & <- & _).
    by rewrite !needs_quote_app, needs_quote_pretty_nat, Hsfx. }
  unfold names_usable. destruct names as [[|nm ns]|]; try done.
  case_bool_decide; [| done].
  specialize (Hnames _ eq_refl). apply Forall_forall. intros f Hf.
  apply list_elem_of_In in Hf. apply in_map_iff in Hf as (x & <- & Hx).
  rewrite needs_quote_app, Hsfx.
  rewrite Forall_forall in Hnames.
  by rewrite (Hnames x) by (by apply list_elem_of_In).
Qed.





Section Aligned.

Variable DATA_DIR : string.



End Aligned.

(** ** Reset trimming (C1) *)

Lemma dec_cons (r : row) (rows : list row) :
  dec (r :: rows) = false :: decs (abs_s r) rows.
Proof. reflexivity. Qed.

Lemma decs_cons (prev : Z) (r : row) (rows : list row) :
  decs prev (r :: rows) = (abs_s r <? prev)%Z :: decs (abs_s r) rows.
Proof.
  unfold decs. simpl. f_equal. apply eq_iff_eq_true.
  rewrite !Z.ltb_lt. lia.
Qed.

Lemma decs_app (prev : Z) (xs ys : list row) :
  decs prev (xs ++ ys)
  = (decs prev xs ++ decs (default prev (last (map abs_s xs))) ys)%list.
Proof.
  revert prev. induction xs as [|x xs IH]; intros prev; [done |].
  rewrite <- app_comm_cons, !decs_cons, IH. simpl. do 3 f_equal.
  generalize (map abs_s xs). intros [|y l]; [done |].
  change (last (abs_s x :: y :: l)) with (last (y :: l)).
  assert (is_Some (last (y :: l))) as [z ->] by (by apply last_is_Some).
  done.
Qed.

Lemma decs_length (prev : Z) (rows : list row) :
  length (decs prev rows) = length rows.
Proof. unfold decs. rewrite length_map. revert prev.
  induction rows as [|r rows IH]; intros prev; simpl; [done | by rewrite IH].
Qed.

(** No decrease in a run of non-decreasing times. *)
Lemma decs_sorted (prev : Z) (rows : list row) :
  Sorted Z.le (prev :: map abs_s rows) → Forall (λ b, b = false) (decs prev rows).
Proof.
  revert prev. induction rows as [|r rows IH]; intros prev Hs; [constructor |].
  rewrite decs_cons. simpl in Hs.
  apply Sorted_inv in Hs as [Hs Hhd]. apply HdRel_inv in Hhd.
  constructor; [apply Z.ltb_ge; lia | by apply IH].
Qed.

Lemma index_where_app (i : nat) (m1 m2 : list bool) :
  index_where i (m1 ++ m2)
  = (index_where i m1 ++ index_where (i + length m1) m2)%list.
Proof.
  revert i. induction m1 as [|b m1 IH]; intros i; simpl.
  - by rewrite Nat.add_0_r.
  - rewrite IH. replace (S i + length m1) with (i + S (length m1)) by lia.
    by destruct b.
Qed.

Lemma index_where_false (i : nat) (mask : list bool) :
  Forall (λ b, b = false) mask → index_where i mask = [].
Proof.
  revert i. induction mask as [|b mask IH]; intros i Hf; [done |].
  apply Forall_cons in Hf as [-> Hf]. simpl. by apply IH.
Qed.

Lemma index_where_lt (i : nat) (mask : list bool) :
  Forall (λ j, j < i + length mask) (index_where i mask).
Proof.
  revert i. induction mask as [|b mask IH]; intros i; [constructor |].
  simpl. specialize (IH (S i)).
  assert (Forall (λ j, j < i + S (length mask)) (index_where (S i) mask))
    by (eapply Forall_impl; [exact IH | simpl; lia]).
  destruct b; [constructor; [lia | done] | done].
Qed.

Lemma foldl_max_le (i m : nat) (l : list nat) :
  (i ≤ m)%nat → Forall (λ j, (j ≤ m)%nat) l → (foldl Nat.max i l ≤ m)%nat.
Proof.
  revert i. induction l as [|x l IH]; intros i Hi Hl; [done |].
  apply Forall_cons in Hl as [Hx Hl]. simpl. apply IH; [lia | done].
Qed.

Lemma index_max_snoc (l : list nat) (m : nat) :
  Forall (λ j, j < m) l → index_max (l ++ [m]) = Some m.
Proof.
  intros Hl. destruct l as [|i l]; [done |].
  apply Forall_cons in Hl as [Hi Hl]. simpl. f_equal.
  rewrite foldl_snoc.
  assert (foldl Nat.max i l ≤ m)%nat
    by (apply foldl_max_le; [lia | eapply Forall_impl; [exact Hl | simpl; lia]]).
  lia.
Qed.

(** Trimming cuts just after the row of the last decrease: of the rows
    [pre ++ a :: b :: post], where [b] is lower than [a] and nothing
    decreases from [b] on, it keeps [post]. *)
Lemma trim_after_last_decrease (pre post : list row) (a b : row) :
  (abs_s b < abs_s a)%Z →
  Sorted Z.le (map abs_s (b :: post)) →
  trim true (pre ++ a :: b :: post) = post.
Proof.
  intros Hlt Hs. unfold trim.
  replace (1 <? length (pre ++ a :: b :: post))%nat with true
    by (symmetry; apply Nat.ltb_lt; rewrite length_app; simpl; lia).
  cbn [andb].
  assert (Hdec : ∃ mask, dec (pre ++ a :: b :: post)
                         = (mask ++ [true] ++ decs (abs_s b) post)%list
                         ∧ length mask = length pre + 1).
  { destruct pre as [|p pre].
    - exists [false]. split; [| done]. simpl app.
      rewrite dec_cons, decs_cons.
      by replace (abs_s b <? abs_s a)%Z with true
        by (symmetry; apply Z.ltb_lt; lia).
    - exists (false :: decs (abs_s p) (pre ++ [a])). split.
      + rewrite <- app_comm_cons, dec_cons.
        change (pre ++ a :: b :: post)%list
          with (pre ++ [a] ++ b :: post)%list.
        rewrite app_assoc, decs_app, decs_cons.
        rewrite map_app. change (map abs_s [a]) with [abs_s a].
        rewrite last_snoc. simpl.
        by replace (abs_s b <? abs_s a)%Z with true
          by (symmetry; apply Z.ltb_lt; lia).
      + simpl. rewrite decs_length, length_app. simpl. lia. }
  destruct Hdec as (mask & -> & Hlen).
  rewrite !index_where_app. simpl.
  rewrite (index_where_false _ _ (decs_sorted _ _ Hs)).
  rewrite index_max_snoc.
  - rewrite Hlen.
    change (pre ++ a :: b :: post)%list with (pre ++ [a; b] ++ post)%list.
    rewrite app_assoc. apply drop_app_length'.
    rewrite length_app. simpl. lia.
  - eapply Forall_impl; [apply index_where_lt | simpl; lia].
Qed.

(** Without a decrease nothing is trimmed. *)
Lemma trim_sorted_id (df : list row) :
  Sorted Z.le (map abs_s df) → trim true df = df.
Proof.
  intros Hs. unfold trim. destruct (true && _); [| done].
  destruct df as [|r df]; [done |].
  rewrite dec_cons. simpl.
  by rewrite (index_where_false _ _ (decs_sorted _ _ Hs)).
Qed.

(** Every frame either has no decrease or splits at its last one. *)
Lemma last_decrease (df : list row) :
  Sorted Z.le (map abs_s df)
  ∨ ∃ pre a b post,
      df = (pre ++ a :: b :: post)%list ∧ (abs_s b < abs_s a)%Z
      ∧ Sorted Z.le (map abs_s (b :: post)).
Proof.
  induction df as [|r df IH]; [left; constructor |].
  destruct IH as [Hs|(pre & a & b & post & -> & Hlt & Hs)].
  - destruct df as [|r' df]; [left; repeat constructor |].
    destruct (decide (abs_s r ≤ abs_s r')%Z).
    + left. simpl. constructor; [done | by constructor].
    + right. exists [], r, r', df. split; [done | split; [lia | done]].
  - right. by exists (r :: pre), a, b, post.
Qed.

(** After trimming, the times are in non-decreasing order. *)
Lemma trim_sorted (df : list row) : Sorted Z.le (map abs_s (trim true df)).
Proof.
  destruct (last_decrease df) as [Hs|(pre & a & b & post & -> & Hlt & Hs)].
  - by rewrite trim_sorted_id.
  - rewrite trim_after_last_decrease by done.
    simpl in Hs. by apply Sorted_inv in Hs as [Hs _].
Qed.

(** C1 (failing input).  On the time axis [10, 20, 30, 5, 15] the mask
    of decreases holds at label 3, the row of the value 5, and the frame
    is cut from label 4 on: the trimmed series is [15], re-zeroed to
    [0], where the specification has [5, 15] and [0, 10].  When the
    decrease is at the last row nothing is left and reading the last
    row fails. *)
Lemma trim_reset_failing_input :
  let df := frame_of_times [10; 20; 30; 5; 15]%Z in
  dec df = [false; false; false; true; false]
  ∧ index_max (index_where 0 (dec df)) = Some 3
  ∧ map abs_s (trim true df) = [15]%Z
  ∧ map fst <$> reconstruct true 15 df = Some [0]%Z
  ∧ trim true (frame_of_times [10; 5]%Z) = []
  ∧ reconstruct true 15 (frame_of_times [10; 5]%Z) = None.
Proof. repeat split; reflexivity. Qed.

(** ** Display rounding (C2) *)

Lemma lookup_map {A B} (f : A → B) (l : list A) (i : nat) :
  map f l !! i = f <$> l !! i.
Proof. apply (list_lookup_fmap f l i). Qed.



(** ** Windowing (C8) *)

Lemma list_min_le (x : Z) (xs : list Z) :
  (list_min x xs ≤ x)%Z ∧ Forall (Z.le (list_min x xs)) xs.
Proof.
  unfold list_min. revert x.
  induction xs as [|y xs IH]; intros x; simpl; [by split |].
  destruct (IH (Z.min x y)) as [Hx Hxs]. split; [lia |].
  constructor; [lia | done].
Qed.

Lemma list_min_elem (x : Z) (xs : list Z) : list_min x xs ∈ x :: xs.
Proof.
  unfold list_min. revert x.
  induction xs as [|y xs IH]; intros x; simpl; [by left |].
  specialize (IH (Z.min x y)).
  apply elem_of_cons in IH as [->|IH].
  - destruct (Z.min_spec x y) as [[_ ->]|[_ ->]];
      [by left | by right; left].
  - by right; right.
Qed.

Lemma list_min_sorted (x : Z) (xs : list Z) :
  Sorted Z.le (x :: xs) → list_min x xs = x.
Proof.
  intros Hs. apply Sorted_StronglySorted in Hs; [| intros a b c; lia].
  apply StronglySorted_inv in Hs as [_ Hall].
  unfold list_min. clear -Hall. revert Hall.
  induction xs as [|y xs IH]; intros Hall; simpl; [done |].
  apply Forall_cons in Hall as [Hy Hall].
  rewrite Z.min_l by done. by apply IH.
Qed.

(** The claim as stated fails on a frame whose times are not in order
    (reset trimming switched off, after a device restart): with times
    [100, 5, 15] everything is kept and the first kept row has time 95,
    the row of the restart has time 0. *)
Lemma window_first_row_zero_counterexample :
  let df := frame_of_times [100; 5; 15]%Z in
  map fst <$> reconstruct false 1 df = Some [95; 0; 10]%Z
  ∧ ¬ (∀ out, window 1 df = Some out → head (map fst out) = Some 0%Z).
Proof.
  split; [reflexivity |].
  intros H. specialize (H _ eq_refl). discriminate H.
Qed.

(** C8, amended.  For every non-empty frame and window length [mins],
    with [now] the time of the last row: exactly the rows with time at
    least [now - mins * 60] are kept, in order; the smallest kept time is
    subtracted from every kept time, so the new times are not negative
    and the earliest kept row has time 0; the first kept row has time 0
    whenever the kept times are in non-decreasing order.  For a window
    length that is not negative the last row is kept. *)
Theorem window_spec (mins : Z) (df : list row) (r_last : row) :
  last df = Some r_last →
  let cut := (abs_s r_last - mins * 60)%Z in
  let kept := filter (λ r, (cut ≤ abs_s r)%Z) df in
  ∃ out m,
    window mins df = Some out
    ∧ map snd out = kept
    ∧ map fst out = map (λ r, (abs_s r - m)%Z) kept
    ∧ (kept ≠ [] → m ∈ map abs_s kept ∧ Forall (Z.le m) (map abs_s kept))
    ∧ (kept ≠ [] → Sorted Z.le (map abs_s kept) →
       head (map fst out) = Some 0%Z)
    ∧ ((0 ≤ mins)%Z → r_last ∈ kept).
Proof.
  intros Hlast cut kept. unfold window. rewrite Hlast.
  fold cut. fold kept.
  assert (Hmaps : ∀ m, map snd (map (λ r, ((abs_s r - m)%Z, r)) kept) = kept
                       ∧ map fst (map (λ r, ((abs_s r - m)%Z, r)) kept)
                         = map (λ r, (abs_s r - m)%Z) kept).
  { intros m. rewrite !map_map. simpl. split; [apply map_id | done]. }
  assert (Hin : (0 ≤ mins)%Z → r_last ∈ kept).
  { intros Hm. subst kept. apply list_elem_of_filter. split; [subst cut; lia |].
    apply last_Some in Hlast as [l' ->]. apply elem_of_app. right. by left. }
  destruct (map abs_s kept) as [|x xs] eqn:Ekept.
  - assert (kept = []) as Hnil by (by destruct kept).
    exists [], 0%Z. rewrite Hnil in *. repeat split; done.
  - exists (map (λ r, ((abs_s r - list_min x xs)%Z, r)) kept), (list_min x xs).
    destruct (Hmaps (list_min x xs)) as [Hsnd Hfst].
    split; [done | split; [done | split; [done | split; [| split; [| done]]]]].
    + intros _. split; [apply list_min_elem |].
      destruct (list_min_le x xs) as [Hx Hxs]. by constructor.
    + intros _ Hs. rewrite Hfst, (list_min_sorted _ _ Hs).
      destruct kept as [|r kept']; [done |]. simpl in *.
      injection Ekept as <- _. f_equal. lia.
Qed.

Lemma window_spec_witness :
  let df := frame_of_times [0; 30; 61; 90]%Z in
  ∃ out, window 1 df = Some out
         ∧ map abs_s (map snd out) = [30; 61; 90]%Z
         ∧ map fst out = [0; 31; 60]%Z.
Proof.
  intros df.
  destruct (window_spec 1 df (Row 90 []) eq_refl)
    as (out & m & Hout & Hsnd & Hfst & _ & Hzero & _).
  exists out. split; [exact Hout |]. split.
  - rewrite Hsnd. reflexivity.
  - injection Hout as <-. reflexivity.
Defined.

(** ** The first kept row after reset trimming *)

Lemma filter_sorted (P : row → Prop) `{!∀ r, Decision (P r)} (l : list row) :
  Sorted Z.le (map abs_s l) → Sorted Z.le (map abs_s (filter P l)).
Proof.
  intros Hs. apply Sorted_StronglySorted in Hs; [| intros x y z; lia].
  apply StronglySorted_Sorted.
  induction l as [|r l IH]; [constructor |].
  simpl in Hs. apply StronglySorted_inv in Hs as [Hs Hall].
  rewrite filter_cons. destruct (decide (P r)); [| by apply IH].
  simpl. constructor; [by apply IH |].
  rewrite Forall_forall in Hall |- *. intros x Hx. apply Hall.
  apply list_elem_of_In in Hx. apply list_elem_of_In.
  apply in_map_iff in Hx as (y & <- & Hy). apply in_map.
  apply list_elem_of_In. apply list_elem_of_In in Hy.
  by apply list_elem_of_filter in Hy as [_ Hy].
Qed.

(** With reset trimming switched on, the kept times are in order, so the
    first row of the window has time 0. *)
Lemma reconstruct_trimmed_first_zero (mins : Z) (df : list row)
    (out : list (Z * row)) :
  reconstruct true mins df = Some out → out ≠ [] →
  head (map fst out) = Some 0%Z.
Proof.
  unfold reconstruct, window. intros Hout Hne.
  destruct (last (trim true df)) as [r|]; [| done].
  pose proof (filter_sorted
                (λ r0, (abs_s r - mins * 60 ≤ abs_s r0)%Z) _ (trim_sorted df))
    as Hs.
  destruct (filter _ (trim true df)) as [|k kept] eqn:Ek;
    simpl in Hout; injection Hout as <-; [done |].
  simpl in *. rewrite (list_min_sorted _ _ Hs). f_equal. lia.
Qed.

(** ** Column names (C7) *)

Section RenameMap.

(** A loop over [enumerate] that assigns [g i col] to the key [col]
    whenever [g] gives a value. *)
Variable g : nat → string → option string.
Variable step : gmap string string → nat * string → gmap string string.
Hypothesis step_lookup : ∀ m i col c,
  step m (i, col) !! c
  = if decide (c = col) then from_option Some (m !! c) (g i col)
    else m !! c.

Lemma fold_lookup_notin (l : list string) (k : nat)
    (m : gmap string string) (c : string) :
  c ∉ l → foldl step m (zip (seq k (length l)) l) !! c = m !! c.
Proof.
  revert k m. induction l as [|x l IH]; intros k m Hc; [done |].
  apply not_elem_of_cons in Hc as [Hx Hl]. simpl.
  rewrite IH by done. by rewrite step_lookup, decide_False.
Qed.

Lemma fold_lookup_at (l : list string) (k : nat)
    (m : gmap string string) (i : nat) (c : string) :
  NoDup l → l !! i = Some c →
  foldl step m (zip (seq k (length l)) l) !! c
  = from_option Some (m !! c) (g (k + i) c).
Proof.
  revert k m i. induction l as [|x l IH]; intros k m i Hnd Hi; [done |].
  apply NoDup_cons in Hnd as [Hx Hnd]. simpl.
  destruct i as [|i]; simpl in Hi.
  - injection Hi as ->. rewrite fold_lookup_notin by done.
    rewrite step_lookup, decide_True by done. by rewrite Nat.add_0_r.
  - rewrite (IH (S k) _ i) by done.
    rewrite step_lookup, decide_False.
    + by replace (S k + i) with (k + S i) by lia.
    + intros ->. apply Hx. by eapply list_elem_of_lookup_2.
Qed.

End RenameMap.

Lemma rename_map_names (name_overrides : option (list string))
    (names val_cols : list string) (i : nat) (col : string) :
  NoDup val_cols →
  usable_names name_overrides (length val_cols) = Some names →
  val_cols !! i = Some col →
  rename_map name_overrides val_cols !! col
  = if tpat_match col then Some (default "" (names !! i) ++ "_C") else None.
Proof.
  intros Hnd Hu Hi. unfold rename_map, enumerate. rewrite Hu.
  rewrite (fold_lookup_at
             (λ i col, if tpat_match col
                       then Some (default "" (names !! i) ++ "_C")
                       else None) _) with (i := i); try done.
  - rewrite lookup_empty. simpl. by destruct (tpat_match col).
  - intros m j x c. destruct (tpat_match x); simpl.
    + destruct (decide (c = x)) as [->|];
        [by rewrite lookup_insert_eq | by rewrite lookup_insert_ne].
    + by destruct (decide (c = x)).
Qed.

Lemma rename_map_sensors (name_overrides : option (list string))
    (val_cols : list string) (i : nat) (col : string) :
  NoDup val_cols →
  usable_names name_overrides (length val_cols) = None →
  forallb tpat_match val_cols = true →
  val_cols !! i = Some col →
  rename_map name_overrides val_cols !! col
  = Some ("Sensor" ++ pretty (i + 1)%nat ++ "_C").
Proof.
  intros Hnd Hu Hall Hi. unfold rename_map, enumerate. rewrite Hu, Hall.
  rewrite (fold_lookup_at
             (λ i col, Some ("Sensor" ++ pretty (i + 1)%nat ++ "_C")) _)
    with (i := i); try done.
  intros m j x c. simpl.
  destruct (decide (c = x)) as [->|];
    [by rewrite lookup_insert_eq | by rewrite lookup_insert_ne].
Qed.

Lemma rename_empty (cols : list string) : rename ∅ cols = cols.
Proof.
  unfold rename. induction cols as [|c cols IH]; [done |].
  simpl. by rewrite lookup_empty, IH.
Qed.

(** The claim as stated fails when the name count matches but only some
    of the columns follow the pattern: the claim leaves all the names
    unchanged, the code renames the columns that follow the pattern. *)
Lemma renamed_val_cols_counterexample :
  let val_cols := ["t0_C"; "room_C"] in
  let names := Some ["A"; "B"] in
  NoDup val_cols
  ∧ forallb tpat_match val_cols = false
  ∧ claimed_val_cols names val_cols = val_cols
  ∧ renamed_val_cols names val_cols = ["A_C"; "room_C"]
  ∧ renamed_val_cols names val_cols ≠ claimed_val_cols names val_cols.
Proof.
  split; [by apply (bool_decide_unpack _) |].
  repeat split; try (vm_compute; reflexivity).
  vm_compute. intros H. discriminate H.
Qed.

(** C7, amended.  For value columns with distinct labels (the labels of
    a frame read from CSV are distinct):
    - if there are sensor names and their count is the number of value
      columns, every column that follows the pattern [t<digits>_C] is
      renamed to the name at its position followed by [_C], and every
      other column keeps its label;
    - otherwise, if all the value columns follow the pattern, the column
      at position [i] is renamed to [Sensor{i+1}_C];
    - otherwise all the labels are left unchanged. *)
Theorem renamed_val_cols_spec (name_overrides : option (list string))
    (val_cols : list string) :
  NoDup val_cols →
  let out := renamed_val_cols name_overrides val_cols in
  let usable :=
    ∃ names, name_overrides = Some names ∧ names ≠ []
             ∧ length names = length val_cols in
  (∀ names i col nm,
     name_overrides = Some names → length names = length val_cols →
     val_cols !! i = Some col → names !! i = Some nm →
     out !! i = Some (if tpat_match col then nm ++ "_C" else col))
  ∧ (¬ usable → forallb tpat_match val_cols = true →
     ∀ i col, val_cols !! i = Some col →
       out !! i = Some ("Sensor" ++ pretty (i + 1)%nat ++ "_C"))
  ∧ (¬ usable → forallb tpat_match val_cols = false → out = val_cols).
Proof.
  intros Hnd out usable.
  assert (Hnone : ¬ usable →
                  usable_names name_overrides (length val_cols) = None).
  { intros Hnu. unfold usable_names.
    destruct name_overrides as [[|nm names]|]; try done.
    case_bool_decide as Hlen; [| done].
    exfalso. apply Hnu. by exists (nm :: names). }
  subst out. unfold renamed_val_cols, rename.
  split; [| split].
  - intros names i col nm Hno Hlen Hi Hnm.
    assert (Hu : usable_names name_overrides (length val_cols) = Some names).
    { unfold usable_names. rewrite Hno.
      destruct names as [|nm' names]; [by destruct i |].
      by rewrite bool_decide_eq_true_2. }
    rewrite lookup_map, Hi. simpl.
    rewrite (rename_map_names _ _ _ _ _ Hnd Hu Hi), Hnm. simpl.
    by destruct (tpat_match col).
  - intros Hnu Hall i col Hi.
    rewrite lookup_map, Hi. simpl.
    by rewrite (rename_map_sensors _ _ _ _ Hnd (Hnone Hnu) Hall Hi).
  - intros Hnu Hall. unfold rename_map. rewrite (Hnone Hnu), Hall.
    apply rename_empty.
Qed.

Lemma renamed_val_cols_spec_witness :
  NoDup ["t0_C"; "t1_C"]
  ∧ renamed_val_cols (Some ["in"; "out"]) ["t0_C"; "t1_C"] !! 1
    = Some "out_C".
Proof.
  assert (Hnd : NoDup ["t0_C"; "t1_C"]) by (by apply (bool_decide_unpack _)).
  split; [exact Hnd |].
  exact (proj1 (renamed_val_cols_spec (Some ["in"; "out"]) ["t0_C"; "t1_C"] Hnd)
           ["in"; "out"] 1 "t1_C" "out" eq_refl eq_refl eq_refl eq_refl).
Defined.

(** ** Sensor-name metadata *)

Section Metadata.

Variable DATA_DIR : string.

Lemma create_meta (path : string) (h : list string) (fs : filesystem) :
  meta (create_if_missing path h fs) = meta fs.
Proof. unfold create_if_missing. by destruct (csv fs !! path). Qed.

Lemma prepare_meta (device : string) (names : option (list string))
    (n : nat) (fs : filesystem) :
  meta (prepare DATA_DIR device names n fs)
  = meta (write_meta_once (fpath DATA_DIR device Meta) names
            (Filesystem (csv fs) (meta fs))).
Proof.
  unfold prepare, write_meta_once. cbn [meta csv].
  rewrite !create_meta, !rotate_meta.
  destruct names as [[|nm ns]|]; try (by rewrite !create_meta, !rotate_meta).
  destruct (meta fs !! fpath DATA_DIR device Meta);
    cbn [meta]; by rewrite ?create_meta, ?rotate_meta.
Qed.

Lemma passes_accepted (data : payload) :
  passes data = true ↔ ∃ ts_ms temps, accepted data ts_ms temps.
Proof.
  unfold passes, accepted. split.
  - destruct (p_ts data) as [ts|]; [| done].
    destruct (p_temps data) as [[[|t temps]|]|]; try done.
    intros _. by exists ts, (t :: temps).
  - intros (ts & temps & -> & -> & Hne). by destruct temps.
Qed.

Lemma passes_response (data : payload) (fs : filesystem) :
  passes data = true ↔ status_code (ingest DATA_DIR data fs).2 = 200.
Proof.
  unfold passes, ingest.
  destruct (p_ts data) as [ts|]; [| done].
  by destruct (p_temps data) as [[[|t temps]|]|].
Qed.

(** The metadata entries after one call: an entry that exists is kept as
    it is; an entry is created only at the metadata path of the
    request's device, by a request that passes validation and has a
    non-empty list of names. *)
Lemma ingest_meta_lookup (data : payload) (fs : filesystem) (p : string) :
  meta (ingest DATA_DIR data fs).1 !! p
  = match meta fs !! p with
    | Some ns => Some ns
    | None =>
        match p_names data with
        | Some ((_ :: _) as ns) =>
            if bool_decide (p = fpath DATA_DIR (device_of data) Meta)
               && passes data
            then Some ns else None
        | _ => None
        end
    end.
Proof.
  destruct (ingest_cases DATA_DIR data fs) as [(ts & temps & Hacc)|Hbad].
  - assert (Hp : passes data = true) by (apply passes_accepted; eauto).
    rewrite Hp, andb_true_r.
    rewrite (ingest_accepted _ _ _ _ _ Hacc). cbv zeta. cbn [fst].
    assert (Hm : ∀ fs1, meta (match raw_of_len data (length temps) with
                              | Some raw =>
                                  append_row
                                    (fpath DATA_DIR (device_of data) Raw)
                                    (data_row ts raw)
                                    (append_row
                                       (fpath DATA_DIR (device_of data) Clean)
                                       (data_row ts temps) fs1)
                              | None =>
                                  append_row
                                    (fpath DATA_DIR (device_of data) Clean)
                                    (data_row ts temps) fs1
                              end) = meta fs1)
      by (intros fs1; by destruct (raw_of_len _ _)).
    rewrite Hm, prepare_meta. unfold write_meta_once. cbn [meta csv].
    destruct (p_names data) as [[|nm ns]|]; cbn [meta];
      try by destruct (meta fs !! p).
    destruct (meta fs !! fpath DATA_DIR (device_of data) Meta) as [old|] eqn:Ho;
      cbn [meta].
    + destruct (meta fs !! p) eqn:Hq; [done |].
      rewrite bool_decide_eq_false_2; [done |]. intros ->. congruence.
    + cbn [meta]. destruct (decide (p = fpath DATA_DIR (device_of data) Meta))
        as [->|Hne].
      * rewrite lookup_insert_eq, Ho. by rewrite bool_decide_eq_true_2.
      * rewrite lookup_insert_ne by done.
        destruct (meta fs !! p); [done |].
        by rewrite bool_decide_eq_false_2.
  - rewrite Hbad. cbn [fst]. destruct (meta fs !! p); [done |].
    destruct (p_names data) as [[|nm ns]|]; try done.
    assert (Hp : passes data = false).
    { destruct (passes data) eqn:E; [| done].
      apply (passes_response data fs) in E. by rewrite Hbad in E. }
    by rewrite Hp, andb_false_r.
Qed.

(** The metadata of a device is written once: the names served by
    [get_names] are never changed or removed by later calls, whatever
    names those carry. *)
Theorem names_never_overwritten (reqs : list payload) (fs : filesystem)
    (device : string) (names : list string) :
  get_names DATA_DIR device fs = Some names →
  get_names DATA_DIR device (ingest_all DATA_DIR reqs fs) = Some names.
Proof.
  unfold get_names. revert fs.
  induction reqs as [|r reqs IH]; intros fs Hn; [done |].
  simpl. apply IH. by rewrite ingest_meta_lookup, Hn.
Qed.


(** Requests that are rejected, or carry no names or an empty list of
    names, write no metadata. *)
Theorem no_names_no_metadata (reqs : list payload) (fs : filesystem) :
  Forall (λ data, passes data = false
                  ∨ p_names data = None ∨ p_names data = Some []) reqs →
  meta (ingest_all DATA_DIR reqs fs) = meta fs.
Proof.
  intros Hreqs. revert fs.
  induction Hreqs as [|r reqs Hr Hreqs IH]; intros fs; [done |].
  simpl. rewrite IH. apply map_eq. intros p. rewrite ingest_meta_lookup.
  destruct (meta fs !! p); [done |].
  destruct Hr as [Hbad|[->| ->]]; try done.
  destruct (p_names r) as [[|nm ns]|]; try done.
  by rewrite Hbad, andb_false_r.
Qed.

End Metadata.

(** ** What rotation leaves behind *)

Section Archive.

Variable DATA_DIR : string.




End Archive.


Lemma names_never_overwritten_witness :
  let first := Payload (Some "esp") (Some 1000%Q) (Some ["in"; "out"])
                 (Some (JList [None; None])) None in
  let later := Payload (Some "esp") (Some 2000%Q) (Some ["a"; "b"; "c"])
                 (Some (JList [None; None; None])) None in
  let fs := (ingest "data" first empty_fs).1 in
  get_names "data" "esp" fs = Some ["in"; "out"]
  ∧ get_names "data" "esp" (ingest_all "data" [later; later] fs)
    = Some ["in"; "out"].
Proof.
  intros first later fs.
  assert (H : get_names "data" "esp" fs = Some ["in"; "out"])
    by (vm_compute; reflexivity).
  split; [exact H |].
  exact (names_never_overwritten "data" [later; later] fs "esp" _ H).
Defined.


Lemma no_names_no_metadata_witness :
  let r1 := Payload (Some "esp") (Some 1000%Q) None
              (Some (JList [None])) None in
  let r2 := Payload (Some "esp") None (Some ["a"]) (Some (JList [None])) None in
  meta (ingest_all "data" [r1; r2] empty_fs) = meta empty_fs.
Proof.
  intros r1 r2. apply (no_names_no_metadata "data" [r1; r2] empty_fs).
  constructor; [right; left; reflexivity |].
  constructor; [left; reflexivity | constructor].
Defined.

(** ** The series as an append-only log *)

Lemma actual_cols_header (h : list string) (rs rs' : list (list cell)) :
  actual_cols (CsvFile h rs) = actual_cols (CsvFile h rs').
Proof. reflexivity. Qed.

Section Log.

Variable DATA_DIR : string.

(** One accepted call with plain names, on a clean file that needs no
    rotation: the row is appended and the file needs no rotation by the
    next call with the same sensor count either. *)
Lemma ingest_same_schema (d : string) (n : nat) (data : payload)
    (fs : filesystem) :
  reading_of d n data → plain_names data →
  rotated (fpath DATA_DIR d Clean) n fs = false →
  rows_at (fpath DATA_DIR d Clean) (ingest DATA_DIR data fs).1
  = (rows_at (fpath DATA_DIR d Clean) fs ++ [clean_row_of data])%list
  ∧ rotated (fpath DATA_DIR d Clean) n (ingest DATA_DIR data fs).1 = false.
Proof.
  intros (<- & ts & temps & Hacc & <-) Hplain Hrot.
  unfold rows_at, rotated in *.
  rewrite (ingest_clean_file _ _ _ _ _ Hacc). cbn [rows header].
  assert (Hrow : clean_row_of data = data_row ts temps)
    by (destruct Hacc as (Hts & Htemps & _); unfold clean_row_of;
        by rewrite Hts, Htemps).
  rewrite Hrow. unfold prepared_file.
  destruct (csv fs !! fpath DATA_DIR (device_of data) Clean) as [old|].
  - apply bool_decide_eq_false in Hrot. apply dec_stable in Hrot.
    rewrite bool_decide_eq_true_2 by done. split; [done |].
    apply bool_decide_eq_false. intros H. apply H.
    by rewrite <- Hrot.
  - split; [done |]. apply bool_decide_eq_false. intros H. apply H.
    cbn [header]. rewrite actual_cols_plain.
    + apply make_header_length.
    + rewrite make_header_length. lia.
    + by apply make_header_plain.
Qed.

(** Accepted calls of one device, all with the same sensor count and
    plain names, on a clean file that is absent or has that count: the
    clean series is the rows it had followed by one row per call, in the
    order of the calls.  Nothing is dropped or reordered, and a reading
    sent twice is stored twice. *)
Theorem clean_series_is_append_only (d : string) (n : nat)
    (reqs : list payload) (fs : filesystem) :
  Forall (λ data, reading_of d n data ∧ plain_names data) reqs →
  rotated (fpath DATA_DIR d Clean) n fs = false →
  rows_at (fpath DATA_DIR d Clean) (ingest_all DATA_DIR reqs fs)
  = (rows_at (fpath DATA_DIR d Clean) fs ++ map clean_row_of reqs)%list.
Proof.
  intros Hreqs. revert fs.
  induction Hreqs as [|r reqs [Hr Hp] Hreqs IH]; intros fs Hrot.
  - simpl. by rewrite app_nil_r.
  - destruct (ingest_same_schema d n r fs Hr Hp Hrot) as [Hrows Hrot'].
    cbn [ingest_all map]. rewrite (IH _ Hrot'), Hrows.
    by rewrite <- app_assoc.
Qed.

End Log.

Lemma clean_series_is_append_only_witness :
  let r ts := Payload (Some "esp") (Some ts) (Some ["in"; "out"])
                (Some (JList [Some 21.5%Q; None])) None in
  rows_at "data/esp.csv"
    (ingest_all "data" [r 1000%Q; r 1000%Q; r 2400%Q] empty_fs)
  = [[CInt 1; CInt 1000; CFloat 21.5%Q; CEmpty];
     [CInt 1; CInt 1000; CFloat 21.5%Q; CEmpty];
     [CInt 2; CInt 2400; CFloat 21.5%Q; CEmpty]].
Proof.
  intros r.
  refine (clean_series_is_append_only "data" "esp" 2
            [r 1000%Q; r 1000%Q; r 2400%Q] empty_fs _ _).
  - assert (H : ∀ ts, reading_of "esp" 2 (r ts) ∧ plain_names (r ts)).
    { intros ts. split.
      - split; [reflexivity |]. exists ts, [Some 21.5%Q; None].
        repeat split; done.
      - intros names [= <-]. by repeat constructor. }
    repeat (constructor; [apply H |]). constructor.
  - reflexivity.
Defined.

(** ** Which devices share files *)




Section Sharing.

Variable DATA_DIR : string.


(** The raw file of a device is the clean file of the device whose id
    is the same id followed by [_raw]: an accepted request of that
    second device leaves its clean row at the end of the first
    device's raw series. *)
Theorem raw_file_shared_with_raw_device (d : string) (data : payload)
    (fs : filesystem) (ts_ms : Q) (temps : list (option Q)) :
  accepted data ts_ms temps →
  device_of data = d ++ "_raw" →
  fpath DATA_DIR (d ++ "_raw") Clean = fpath DATA_DIR d Raw
  ∧ last (rows_at (fpath DATA_DIR d Raw) (ingest DATA_DIR data fs).1)
    = Some (data_row ts_ms temps).
Proof.
  intros Hacc Hd.
  assert (Hpath : fpath DATA_DIR (d ++ "_raw") Clean = fpath DATA_DIR d Raw).
  { unfold fpath. f_equal.
    change ("" ++ ".csv") with ".csv".
    rewrite (string_app_assoc d "_raw" ".csv"). reflexivity. }
  split; [done |].
  rewrite <- Hpath, <- Hd. unfold rows_at.
  rewrite (ingest_clean_file _ _ _ _ _ Hacc). cbn [rows].
  apply last_snoc.
Qed.

End Sharing.


Lemma raw_file_shared_with_raw_device_witness :
  let first := Payload (Some "esp") (Some 1000%Q) None
                 (Some (JList [Some 21.5%Q])) (Some (JList [Some 85%Q])) in
  let other := Payload (Some "esp_raw") (Some 7000%Q) None
                 (Some (JList [Some 3.5%Q])) None in
  let fs := (ingest "data" first empty_fs).1 in
  accepted other 7000%Q [Some 3.5%Q]
  ∧ rows_at (fpath "data" "esp" Raw) (ingest "data" other fs).1
    = [[CInt 1; CInt 1000; CFloat 85%Q]; [CInt 7; CInt 7000; CFloat 3.5%Q]]
  ∧ last (rows_at (fpath "data" "esp" Raw) (ingest "data" other fs).1)
    = Some [CInt 7; CInt 7000; CFloat 3.5%Q].
Proof.
  intros first other fs.
  assert (Hacc : accepted other 7000%Q [Some 3.5%Q]) by (repeat split; done).
  split; [exact Hacc | split; [vm_compute; reflexivity |]].
  exact (proj2 (raw_file_shared_with_raw_device "data" "esp" other fs _ _
                  Hacc eq_refl)).
Defined.

(** ** The clean series read back *)

Section CleanServed.

Variable DATA_DIR : string.



End CleanServed.



(** ** Time stamps of whole milliseconds *)



Lemma rotate_if_mismatch_suffix_witness :
  let first := Payload (Some "esp") (Some 1000%Q) None
                 (Some (JList [Some 21.5%Q])) None in
  let fs := (ingest "data" first empty_fs).1 in
  has_csv "data/esp" = false
  ∧ csv (rotate_if_mismatch "data/esp.csv" 4 fs) !! "data/esp_legacy.csv"
    = csv fs !! "data/esp.csv"
  ∧ csv (rotate_if_mismatch "data/esp.csv" 3 fs) = csv fs.
Proof.
  intros first fs.
  assert (Hx : has_csv "data/esp" = false) by reflexivity.
  assert (Hf : csv fs !! ("data/esp" ++ ".csv")
               = Some (CsvFile ["ts_s"; "ts_ms"; "t0_C"]
                         [[CInt 1; CInt 1000; CFloat 21.5%Q]]))
    by (vm_compute; reflexivity).
  split; [exact Hx |]. split.
  - change "data/esp.csv" with ("data/esp" ++ ".csv").
    rewrite (rotate_if_mismatch_suffix "data/esp" 4 fs _ Hx Hf).
    vm_compute. reflexivity.
  - change "data/esp.csv" with ("data/esp" ++ ".csv").
    rewrite (rotate_if_mismatch_suffix "data/esp" 3 fs _ Hx Hf).
    reflexivity.
Defined.

Lemma reconstruct_trimmed_first_zero_witness :
  let df := frame_of_times [10; 20; 30; 5; 15; 25]%Z in
  let out := [(0%Z, Row 15 []); (10%Z, Row 25 [])] in
  reconstruct true 15 df = Some out
  ∧ head (map fst out) = Some 0%Z.
Proof.
  intros df out.
  assert (Hout : reconstruct true 15 df = Some out) by reflexivity.
  split; [exact Hout |].
  apply (reconstruct_trimmed_first_zero 15 df out Hout).
  intros H. discriminate H.
Defined.

(** ** Reset trimming and the failure of the pipeline *)

(** What trimming does to every frame: switched off, nothing; without a
    decrease of the time, nothing; otherwise it keeps the rows that
    follow the row of the last decrease.  The result is a final part of
    the frame, its times are in non-decreasing order, and trimming it
    again changes nothing. *)
Theorem trim_spec (df : list row) :
  trim false df = df
  ∧ (Sorted Z.le (map abs_s df) → trim true df = df)
  ∧ (∀ pre a b post,
       df = (pre ++ a :: b :: post)%list → (abs_s b < abs_s a)%Z →
       Sorted Z.le (map abs_s (b :: post)) → trim true df = post)
  ∧ Sorted Z.le (map abs_s (trim true df))
  ∧ trim true (trim true df) = trim true df
  ∧ ∃ pre, df = (pre ++ trim true df)%list.
Proof.
  split; [done |]. split; [apply trim_sorted_id |]. split.
  { intros pre a b post -> Hlt Hs. by apply trim_after_last_decrease. }
  split; [apply trim_sorted |].
  split; [apply trim_sorted_id, trim_sorted |].
  destruct (last_decrease df) as [Hs|(pre & a & b & post & -> & Hlt & Hs)].
  - exists []. by rewrite trim_sorted_id.
  - exists (pre ++ [a; b])%list. rewrite trim_after_last_decrease by done.
    by rewrite <- app_assoc.
Qed.

Lemma window_fails_iff (mins : Z) (df : list row) :
  window mins df = None ↔ df = [].
Proof.
  unfold window. split; [| by intros ->].
  destruct (last df) as [r|] eqn:Hl; [| intros _; by apply last_None].
  by destruct (map abs_s _).
Qed.

(** The pipeline fails (reading the last row of an empty frame) exactly
    when the frame read is empty or, with reset trimming switched on,
    when the time of the last row is lower than the time of the row
    before it. *)
Theorem reconstruct_fails_iff (mins : Z) :
  (∀ df, reconstruct false mins df = None ↔ df = [])
  ∧ reconstruct true mins [] = None
  ∧ (∀ r, reconstruct true mins [r] ≠ None)
  ∧ (∀ pre a b,
       reconstruct true mins (pre ++ [a; b]) = None
       ↔ (abs_s b < abs_s a)%Z).
Proof.
  split; [intros df; apply window_fails_iff |].
  split; [done |]. split.
  { intros r H. unfold reconstruct in H. apply window_fails_iff in H.
    discriminate H. }
  intros pre a b. unfold reconstruct. rewrite window_fails_iff. split.
  - intros Hnil.
    destruct (decide (abs_s b < abs_s a)%Z) as [|Hge]; [done |]. exfalso.
    destruct (last_decrease (pre ++ [a; b]))
      as [Hs|(pre' & a' & b' & post & E & Hlt & Hs)].
    + rewrite trim_sorted_id in Hnil by done. by destruct pre.
    + rewrite E, trim_after_last_decrease in Hnil by done. subst post.
      change (pre ++ [a; b])%list with (pre ++ [a] ++ [b])%list in E.
      change (pre' ++ [a'; b'])%list with (pre' ++ [a'] ++ [b'])%list in E.
      rewrite !app_assoc in E.
      apply app_inj_tail in E as [E ->]. apply app_inj_tail in E as [_ ->].
      lia.
  - intros Hlt. apply trim_after_last_decrease; [done |].
    repeat constructor.
Qed.

(** ** The positional header, from the API to the dashboard *)











(** ** The window of a frame in time order *)

Lemma sorted_le_last (x : Z) (xs : list Z) (z : Z) :
  Sorted Z.le (x :: xs) → last (x :: xs) = Some z → (x ≤ z)%Z.
Proof.
  intros Hs Hl. apply Sorted_StronglySorted in Hs; [| intros a b c; lia].
  apply StronglySorted_inv in Hs as [_ Hall].
  destruct xs as [|y ys]; [injection Hl as <-; lia |].
  change (last (x :: y :: ys)) with (last (y :: ys)) in Hl.
  rewrite Forall_forall in Hall. apply Hall.
  apply last_Some in Hl as [l' ->]. apply elem_of_app. right. by left.
Qed.

Lemma sorted_all_le_last (l : list Z) (z : Z) :
  Sorted Z.le l → last l = Some z → Forall (λ x, (x ≤ z)%Z) l.
Proof.
  induction l as [|x l IH]; intros Hs Hl; [constructor |].
  constructor; [by eapply sorted_le_last |].
  destruct l as [|y l]; [constructor |].
  apply IH; [by apply Sorted_inv in Hs as [Hs _] | done].
Qed.

(** On a frame whose times are in non-decreasing order (as after reset
    trimming) and for a window length that is not negative, every new
    time lies between 0 and [mins * 60], and the last row is kept with
    the largest new time. *)
Theorem window_times_bounded (mins : Z) (df : list row)
    (out : list (Z * row)) :
  (0 ≤ mins)%Z → Sorted Z.le (map abs_s df) →
  window mins df = Some out →
  Forall (λ t, (0 ≤ t ≤ mins * 60)%Z) (map fst out)
  ∧ ∃ t, last (map fst out) = Some t
         ∧ Forall (λ t', (t' ≤ t)%Z) (map fst out).
Proof.
  intros Hmins Hs. unfold window.
  destruct (last df) as [r|] eqn:Hlast; [| done].
  set (cut := (abs_s r - mins * 60)%Z).
  set (kept := filter (λ r0, (cut ≤ abs_s r0)%Z) df).
  assert (Hmax : Forall (λ r0, (abs_s r0 ≤ abs_s r)%Z) df).
  { assert (Hl : last (map abs_s df) = Some (abs_s r)).
    { clear -Hlast. apply last_Some in Hlast as [l' ->].
      rewrite map_app. apply last_snoc. }
    pose proof (sorted_all_le_last (map abs_s df) (abs_s r) Hs Hl) as H.
    rewrite Forall_forall in H. rewrite Forall_forall. intros r0 Hr0. apply H.
    apply list_elem_of_In, in_map. by apply list_elem_of_In. }
  assert (Hkept : Forall (λ r0, (cut ≤ abs_s r0 ≤ abs_s r)%Z) kept).
  { apply Forall_forall. intros r0 Hr0. subst kept.
    apply list_elem_of_filter in Hr0 as [Hc Hr0].
    rewrite Forall_forall in Hmax. split; [done | by apply Hmax]. }
  assert (Hlk : last kept = Some r).
  { subst kept. apply last_Some in Hlast as [l' ->].
    rewrite filter_app, filter_cons_True by (subst cut; lia).
    rewrite filter_nil. apply last_snoc. }
  destruct (map abs_s kept) as [|x xs] eqn:E.
  { destruct kept; [done | done]. }
  intros [= <-]. rewrite map_map. cbn [fst].
  pose proof (list_min_elem x xs) as Hin. rewrite <- E in Hin.
  destruct (list_min_le x xs) as [Hx Hxs].
  assert (Hm : (cut ≤ list_min x xs ≤ abs_s r)%Z).
  { apply list_elem_of_In, in_map_iff in Hin as (r0 & <- & Hr0).
    rewrite Forall_forall in Hkept. apply Hkept. by apply list_elem_of_In. }
  assert (Hlow : Forall (λ r0, (list_min x xs ≤ abs_s r0)%Z) kept).
  { apply Forall_forall. intros r0 Hr0.
    assert (Hr0' : abs_s r0 ∈ x :: xs)
      by (rewrite <- E; apply list_elem_of_In, in_map;
          by apply list_elem_of_In).
    apply elem_of_cons in Hr0' as [->|Hr0']; [done |].
    rewrite Forall_forall in Hxs. by apply Hxs. }
  split.
  - apply Forall_forall. intros t Ht.
    apply list_elem_of_In, in_map_iff in Ht as (r0 & <- & Hr0).
    apply list_elem_of_In in Hr0.
    rewrite Forall_forall in Hkept. rewrite Forall_forall in Hlow.
    specialize (Hkept _ Hr0). specialize (Hlow _ Hr0). subst cut. lia.
  - exists (abs_s r - list_min x xs)%Z. split.
    + apply last_Some in Hlk as [l' ->]. rewrite map_app. apply last_snoc.
    + apply Forall_forall. intros t Ht.
      apply list_elem_of_In, in_map_iff in Ht as (r0 & <- & Hr0).
      apply list_elem_of_In in Hr0.
      rewrite Forall_forall in Hkept. specialize (Hkept _ Hr0). lia.
Qed.

Lemma window_times_bounded_witness :
  let df := frame_of_times [0; 30; 61; 90]%Z in
  let out := [(0%Z, Row 30 []); (31%Z, Row 61 []); (60%Z, Row 90 [])] in
  (0 ≤ 1)%Z ∧ Sorted Z.le (map abs_s df) ∧ window 1 df = Some out
  ∧ Forall (λ t, (0 ≤ t ≤ 1 * 60)%Z) (map fst out).
Proof.
  intros df out.
  assert (H0 : (0 ≤ 1)%Z) by lia.
  assert (Hs : Sorted Z.le (map abs_s df))
    by (repeat constructor; simpl; lia).
  assert (Hw : window 1 df = Some out) by reflexivity.
  split; [exact H0 | split; [exact Hs | split; [exact Hw |]]].
  exact (proj1 (window_times_bounded 1 df out H0 Hs Hw)).
Defined.

(** ** Rounding of whole values and of ordered values *)

